(** * automol.graph._geom2: heuristic z-matrices from molecular graphs

    A shallow embedding of [automol/graph/_geom2.py] (with the graph getters
    of [automol/graph/_graph_base.py] it relies on) and the properties of
    its heuristic parameter model, ring-closure angle solver and z-matrix
    builders.

    Modelling conventions.
    - Python floats are idealised as real numbers ([R]); comparisons are the
      exact ones.  The float constant [numpy.pi] is the rational number the
      binary64 format stores, so that it stays strictly below [PI].
    - Where a property of the angle solver turns on rounding (its guard, a
      scaling of its arguments), the solver is stated again over binary64
      numbers, in the module [B64].
    - A Python call that may raise returns a [result]: [Ok v] or [Raise e].
    - Dictionaries are [gmap]s, frozensets are [gset]s, tuples and lists are
      lists.
    - [print] calls are not modelled. *)

From Stdlib Require Import Reals Ranalysis5 Lra Machin ZArith ClassicalEpsilon Floats.
From stdpp Require Import gmap strings list.

(** ** Exceptions and fallible computations *)

Inductive exn : Set :=
  | AssertionError
  | KeyError
  | IndexError
  | ValueError
  | ZeroDivisionError
  | StopIteration
  | OverflowError
  | NotAnElementError.

Inductive result (A : Type) : Type :=
  | Ok (a : A)
  | Raise (e : exn).
Arguments Ok {A} a.
Arguments Raise {A} e.

#[global] Instance result_ret : MRet result := @Ok.
#[global] Instance result_bind : MBind result :=
  fun A B k m => match m with Ok a => k a | Raise e => Raise e end.
#[global] Instance result_fmap : FMap result :=
  fun A B g m => match m with Ok a => Ok (g a) | Raise e => Raise e end.

(** [assert b] *)
Definition assert (b : bool) : result unit :=
  if b then Ok tt else Raise AssertionError.

(** [dct[key]] *)
Definition getitem `{Countable K} {V} (dct : gmap K V) (key : K) : result V :=
  match dct !! key with
  | Some v => Ok v
  | None => Raise KeyError
  end.

(** [x / y] on Python floats (or a float and an int) *)
Definition pydiv (x y : R) : result R :=
  if Req_dec_T y 0 then Raise ZeroDivisionError else Ok (x / y)%R.

(** [dict(zip(keys, vals))]: a later pair overrides an earlier one *)
Definition dict_zip `{Countable K} {V} (keys : list K) (vals : list V) : gmap K V :=
  foldl (fun dct kv => <[kv.1 := kv.2]> dct) ∅ (zip keys vals).

(** [lst.index(x)] *)
Fixpoint list_index (lst : list nat) (x : nat) : result nat :=
  match lst with
  | [] => Raise ValueError
  | y :: lst' => if decide (y = x) then Ok 0 else S <$> list_index lst' x
  end.

(** [lst[i]] for [i >= 0] *)
Definition list_getitem {A} (lst : list A) (i : nat) : result A :=
  match lst !! i with
  | Some a => Ok a
  | None => Raise IndexError
  end.

(** ** The molecular graph ([_graph_base.py]) *)

(** An atom is [(symbol, implicit_hydrogen_valence, stereo_parity)], a bond
    is [(order, stereo_parity)], and a graph is the pair of the atom
    dictionary and of the bond dictionary, the latter keyed by the frozenset
    of the two atom keys. *)
Definition atom : Type := string * nat * option bool.
Definition bond : Type := nat * option bool.
Definition graph : Type := gmap nat atom * gmap (gset nat) bond.

(** atoms, as a dictionary *)
Definition atoms (xgr : graph) : gmap nat atom := xgr.1.

(** bonds, as a dictionary *)
Definition bonds (xgr : graph) : gmap (gset nat) bond := xgr.2.

(** atom keys *)
Definition atom_keys (xgr : graph) : gset nat := dom (atoms xgr).

(** bond keys *)
Definition bond_keys (xgr : graph) : gset (gset nat) := dom (bonds xgr).

(** The positions of the properties in the atom and bond tuples, as the
    projections that read them *)
Definition ATM_SYM_POS (atm : atom) : string := atm.1.1.
Definition ATM_IMP_HYD_VLC_POS (atm : atom) : nat := atm.1.2.
Definition ATM_STE_PAR_POS (atm : atom) : option bool := atm.2.

Definition BND_ORD_POS (bnd : bond) : nat := bnd.1.
Definition BND_STE_PAR_POS (bnd : bond) : option bool := bnd.2.

(** Modelled from the spec: [automol.dict_.multi.by_key_by_position], which
    the getters below call and which is not among the sources.  By the
    collaborator [atomSymbols(graph) -> key→symbol] it maps each of the given
    keys to the component at the given position of its value. *)
Definition by_key_by_position `{Countable K} {V C : Type}
    (dct : gmap K V) (keys : gset K) (pos : V -> C) : gmap K C :=
  pos <$> filter (fun kv => kv.1 ∈ keys) dct.

(** atom symbols, as a dictionary *)
Definition atom_symbols (xgr : graph) : gmap nat string :=
  by_key_by_position (atoms xgr) (atom_keys xgr) ATM_SYM_POS.

(** atom implicit hydrogen valences, as a dictionary *)
Definition atom_implicit_hydrogen_valences (xgr : graph) : gmap nat nat :=
  by_key_by_position (atoms xgr) (atom_keys xgr) ATM_IMP_HYD_VLC_POS.

(** atom parities, as a dictionary *)
Definition atom_stereo_parities (sgr : graph) : gmap nat (option bool) :=
  by_key_by_position (atoms sgr) (atom_keys sgr) ATM_STE_PAR_POS.

(** bond orders, as a dictionary *)
Definition bond_orders (rgr : graph) : gmap (gset nat) nat :=
  by_key_by_position (bonds rgr) (bond_keys rgr) BND_ORD_POS.

(** bond parities, as a dictionary *)
Definition bond_stereo_parities (sgr : graph) : gmap (gset nat) (option bool) :=
  by_key_by_position (bonds sgr) (bond_keys sgr) BND_STE_PAR_POS.

(** Modelled from the spec: [automol.graph._graph.atom_neighbor_keys], the
    collaborator [atomNeighborKeys(graph) -> key→set-of-keys].  Every atom
    key is mapped to the set of the other keys it shares a bond with. *)
Definition atom_neighbor_keys (xgr : graph) : gmap nat (gset nat) :=
  map_imap
    (fun key _ =>
       Some (⋃ (filter (fun bnd_key : gset nat => key ∈ bnd_key)
                       (elements (bond_keys xgr))) ∖ {[key]}))
    (atoms xgr).

(** ** The z-matrix collaborator *)

(** Modelled from the spec: the z-matrix type of [automol.zmat].  A row
    holds the atom symbol, the three back-references [[row3, row2, row1]]
    and the three values [[distance, angle, dihedral]] it was appended
    with; an entry is [None] where the builder passed [None]. *)
Record zrow : Type := ZRow {
  row_sym : string;
  key_row : list (option nat);
  val_row : list (option R)
}.

Definition zmatrix : Type := list zrow.

(** Modelled from the spec: [automol.zmat.count], the collaborator
    [rowCount(zmatrix) -> integer]. *)
Definition zmat_count (zma : zmatrix) : nat := length zma.

(** Modelled from the spec: [automol.zmat.add_atom], the collaborator
    [appendAtom(zmatrix, symbol, referenceRows[3], values[3])], which
    appends one row and leaves the earlier ones as they are. *)
Definition zmat_add_atom (zma : zmatrix) (sym : string)
    (key_row : list (option nat)) (val_row : list (option R)) : zmatrix :=
  zma ++ [ZRow sym key_row val_row].

(** The back-references a row holds *)
Definition row_refs (row : zrow) : list nat :=
  omap (fun ref : option nat => ref) (key_row row).

(** [lst[-1]] *)
Definition list_last {A} (lst : list A) : result A :=
  match last lst with
  | Some a => Ok a
  | None => Raise IndexError
  end.

(** The entries at the end of a row replaced by given ones *)
Definition replace_tail {A} (row : list (option A)) (new : list A) : list (option A) :=
  take (length row - length new) row ++ (Some <$> new).

(** Modelled from the spec: [automol.zmat.join_replace_one], the collaborator
    [spliceReplaceOne(zmatrix, otherZmatrix, targetRow, referenceRowMatrix,
    valueMatrix) -> merged zmatrix] of section 4.5(e).  The first row of the
    other z-matrix stands for the atom already placed at the target row and
    is dropped; the remaining rows are concatenated after the first
    z-matrix, their back-references renumbered (row 0 of the other z-matrix
    becomes the target row, row [j > 0] becomes row [count(zma1) + j - 1]),
    and the last references and values of the first two of them are replaced
    by the rows of the reference-row and value matrices. *)
Definition join_replace_one (zma1 zma2 : zmatrix) (rep1_key : nat)
    (key_mat : list (list nat)) (val_mat : list (list R)) : zmatrix :=
  let shift (ref : nat) :=
    if decide (ref = 0) then rep1_key else length zma1 + ref - 1 in
  zma1 ++
  imap (fun k row =>
          ZRow (row_sym row)
               (replace_tail (fmap (M := option) shift <$> key_row row)
                             (default [] (key_mat !! k)))
               (replace_tail (val_row row) (default [] (val_mat !! k))))
       (drop 1 zma2).

(** ** Constants *)

Local Open Scope R_scope.

(** bond distances (angstroms) *)
Definition XY_DIST : R := 1.5.
Definition XH_DIST : R := 1.1.

(** bond angles (degrees) *)
Definition TET_ANG : R := 109.4712.
Definition TRI_ANG : R := 120.
Definition LIN_ANG : R := 180.

(** dihedral angles (degrees) *)
Definition CIS_DIH : R := 0.
Definition TRA_DIH : R := 180.

(** miscellaneous *)
Definition RIT_ANG : R := 90.

(** [numpy.pi]: the binary64 number 0x400921FB54442D18, that is
    884279719003555 / 2^48 *)
Definition numpy_pi : R := 884279719003555 / 281474976710656.

(** [qcc.conversion_factor('radian', 'degree')] *)
Definition radian_to_degree : R := 180 / PI.

Local Close Scope R_scope.

(** ** Loops *)

(** [for x in xs: st = step(st, x)], stopping at the first exception *)
Fixpoint for_each {S A : Type} (step : S -> A -> result S) (st : S) (xs : list A)
    : result S :=
  match xs with
  | [] => Ok st
  | x :: xs' => st' ← step st x; for_each step st' xs'
  end.

(** The local variables of the two builder loops ([chain_zmatrix] and
    [ring_zmatrix]): the row dictionary, the z-matrix under construction
    and the rolling window of the three keys placed last, with the rows and
    the values that go with them. *)
Record loop_state : Type := LoopState {
  st_row_dct : gmap nat nat;
  st_zma : zmatrix;
  st_key3 : option nat; st_row3 : option nat; st_r34 : option R;
  st_key2 : option nat; st_row2 : option nat; st_a234 : option R;
  st_key1 : option nat; st_row1 : option nat; st_d1234 : option R
}.

(** What [scipy.optimize.root_scalar] returns: [res_obj.converged] and
    [res_obj.root] *)
Record RootResults : Type := { converged : bool; root : R }.

(** ** The functions of [_geom2.py] *)

Section Geom2.

(** [qcelemental.periodictable.to_Z]: the atomic number of a symbol *)
Variable to_Z : string -> result Z.

(** [automol.graph._res.resonance_dominant_atom_hybridizations] *)
Variable resonance_dominant_atom_hybridizations : graph -> gmap nat Z.

(** [scipy.optimize.root_scalar(f, method='brentq', bracket=[a, b])] *)
Variable root_scalar : (R -> result R) -> R -> R -> result RootResults.

(** [automol.zmat.distance(zma, row1, row2, angstrom=True)] *)
Variable zmat_distance : zmatrix -> nat -> nat -> result R.

(** [automol.zmat.central_angle(zma, row1, row2, row3, degree=True)] *)
Variable zmat_central_angle : zmatrix -> nat -> nat -> nat -> result R.

(** [automol.graph.string(gra)], the argument of the first [print] of
    [ring_system_zmatrix].  It is the function [string] of
    [_graph_base.py], which runs through [relabel] and through helpers that
    are not among the sources ([dict_.transform_keys],
    [dict_.transform_values], [_create.from_atoms_and_bonds], [yaml.dump]):
    the text, or the exception raised on the way ([relabel] looks every atom
    key of every bond key up in a dictionary of the atom keys, a [KeyError]
    for a bond on a key that is no atom key). *)
Variable graph_string : graph -> result string.

(** [automol.zmat.geometry(zma)], [automol.zmat.string(zma)] and
    [automol.geom.string(geo)] *)
Variable geometry : Type.
Variable zmat_geometry : zmatrix -> result geometry.
Variable zmat_string : zmatrix -> result string.
Variable geom_string : geometry -> result string.

(** heuristic bond distance ([check] defaults to [True] in the source; the
    callers below pass it) *)
Definition heuristic_bond_distance (gra : graph) (key1 key2 : nat) (check : bool)
    : result R :=
  (if check then
     ngb_keys ← getitem (atom_neighbor_keys gra) key2;
     assert (bool_decide (key1 ∈ ngb_keys))
   else Ok tt);;
  let sym_dct := atom_symbols gra in
  sym1 ← getitem sym_dct key1;
  sym2 ← getitem sym_dct key2;
  z1 ← to_Z sym1;
  if (z1 =? 1)%Z then Ok XH_DIST
  else
    z2 ← to_Z sym2;
    if (z2 =? 1)%Z then Ok XH_DIST else Ok XY_DIST.

(** heuristic bond angle *)
Definition heuristic_bond_angle (gra : graph) (key1 key2 key3 : nat) (check : bool)
    : result R :=
  (if check then
     ngb_keys ← getitem (atom_neighbor_keys gra) key2;
     assert (bool_decide (({[key1; key3]} : gset nat) ⊆ ngb_keys))
   else Ok tt);;
  let hyb_dct := resonance_dominant_atom_hybridizations gra in
  hyb2 ← getitem hyb_dct key2;
  if (hyb2 =? 3)%Z then Ok TET_ANG
  else if (hyb2 =? 2)%Z then Ok TRI_ANG
  else assert (hyb2 =? 1)%Z;; Ok LIN_ANG.

(** The residual [_f] of [ring_arc_bond_angle], closed over [num],
    [end_dist] and [bond_dist].  Its two Python divisions raise on a zero
    divisor; the quotient of the two sines is a numpy division, which does
    not raise. *)
Definition _f (num : Z) (end_dist bond_dist : R) (theta : R) : result R :=
  let theta := if Rlt_dec (Rabs theta) 0.001 then 0.001%R else theta in
  half_alpha ← pydiv theta (IZR (2 * (num - 1)));
  let rhs := (sin half_alpha / sin (theta / 2))%R in
  lhs ← pydiv bond_dist end_dist;
  Ok (rhs - lhs)%R.

(** find the bond angle (in degrees) for completing a circular arc between
    points *)
Definition ring_arc_bond_angle (num : Z) (end_dist bond_dist : R) : result R :=
  if Rgt_dec end_dist (IZR (num - 1) * bond_dist) then Ok 180%R
  else
    res_obj ← root_scalar (_f num end_dist bond_dist) 0.01%R (2 * numpy_pi)%R;
    assert (converged res_obj);;
    let theta := (root res_obj * radian_to_degree)%R in
    alpha ← pydiv theta (IZR (num - 1));
    Ok (180 - alpha)%R.

(** One turn of the loop of [chain_zmatrix] *)
Definition chain_step (gra : graph) (st : loop_state) (key4 : nat)
    : result loop_state :=
  let sym_dct := atom_symbols gra in
  let row_dct := <[key4 := zmat_count (st_zma st)]> (st_row_dct st) in
  '(row3, r34) ←
    match st_key3 st with
    | Some key3 =>
        row3 ← getitem row_dct key3;
        r34 ← heuristic_bond_distance gra key3 key4 true;
        Ok (Some row3, Some r34)
    | None => Ok (st_row3 st, st_r34 st)
    end;
  '(row2, a234) ←
    match st_key2 st with
    | Some key2 =>
        row2 ← getitem row_dct key2;
        a234 ← match st_key3 st with
                | Some key3 => heuristic_bond_angle gra key2 key3 key4 true
                | None => Raise KeyError
                end;
        Ok (Some row2, Some a234)
    | None => Ok (st_row2 st, st_a234 st)
    end;
  '(row1, d1234) ←
    match st_key1 st with
    | Some key1 =>
        row1 ← getitem row_dct key1;
        Ok (Some row1, Some TRA_DIH)
    | None => Ok (st_row1 st, st_d1234 st)
    end;
  sym4 ← getitem sym_dct key4;
  let zma := zmat_add_atom (st_zma st) sym4 [row3; row2; row1] [r34; a234; d1234] in
  Ok {| st_row_dct := row_dct; st_zma := zma;
        st_key3 := Some key4; st_row3 := row3; st_r34 := r34;
        st_key2 := st_key3 st; st_row2 := row2; st_a234 := a234;
        st_key1 := st_key2 st; st_row1 := row1; st_d1234 := d1234 |}.

(** z-matrix for a chain of heavy atoms *)
Definition chain_zmatrix (gra : graph) (chain_keys : list nat)
    : result (zmatrix * list nat) :=
  st ← for_each (chain_step gra)
         {| st_row_dct := ∅; st_zma := [];
            st_key3 := None; st_row3 := None; st_r34 := None;
            st_key2 := None; st_row2 := None; st_a234 := None;
            st_key1 := None; st_row1 := None; st_d1234 := None |}
         chain_keys;
  chain_rows ← mapM (getitem (st_row_dct st)) chain_keys;
  Ok (st_zma st, chain_rows).

(** One turn of the loop of [ring_zmatrix] *)
Definition ring_step (gra : graph) (st : loop_state) (key4 : nat)
    : result loop_state :=
  let sym_dct := atom_symbols gra in
  let row_dct := <[key4 := zmat_count (st_zma st)]> (st_row_dct st) in
  row3 ← match st_key3 st with
          | Some key3 => Some <$> getitem row_dct key3
          | None => Ok (st_row3 st)
          end;
  row2 ← match st_key2 st with
          | Some key2 => Some <$> getitem row_dct key2
          | None => Ok (st_row2 st)
          end;
  row1 ← match st_key1 st with
          | Some key1 => Some <$> getitem row_dct key1
          | None => Ok (st_row1 st)
          end;
  sym4 ← getitem sym_dct key4;
  let zma := zmat_add_atom (st_zma st) sym4 [row3; row2; row1]
                           [st_r34 st; st_a234 st; st_d1234 st] in
  Ok {| st_row_dct := row_dct; st_zma := zma;
        st_key3 := Some key4; st_row3 := row3; st_r34 := st_r34 st;
        st_key2 := st_key3 st; st_row2 := row2; st_a234 := st_a234 st;
        st_key1 := st_key2 st; st_row1 := row1; st_d1234 := st_d1234 st |}.

(** z-matrix for a ring (or arc) of heavy atoms.  An argument the caller
    leaves out is [None] and takes the default of the signature,
    [bond_dist=XY_DIST, end_dist=XY_DIST]. *)
Definition ring_zmatrix (gra : graph) (ring_keys : list nat)
    (bond_dist end_dist : option R) : result (zmatrix * list nat) :=
  let bond_dist := default XY_DIST bond_dist in
  let end_dist := default XY_DIST end_dist in
  let num := length ring_keys in
  bond_ang ← ring_arc_bond_angle (Z.of_nat num) end_dist bond_dist;
  st ← for_each (ring_step gra)
         {| st_row_dct := ∅; st_zma := [];
            st_key3 := None; st_row3 := None; st_r34 := Some bond_dist;
            st_key2 := None; st_row2 := None; st_a234 := Some bond_ang;
            st_key1 := None; st_row1 := None; st_d1234 := Some 0%R |}
         ring_keys;
  ring_rows ← mapM (getitem (st_row_dct st)) ring_keys;
  Ok (st_zma st, ring_rows).

(** The z-matrix [zma] that [ring_system_zmatrix] has built when it reaches
    its last statements (line 215 of the source).  Of the [print] calls the
    first is modelled, whose argument is a call that can raise; the others
    print a list, a tuple and a float. *)
Definition ring_system_zmatrix_zma (gra : graph)
    (ring_system_decomp_keys : list (list nat)) : result zmatrix :=
  match ring_system_decomp_keys with
  | [] => Raise StopIteration
  | ring_keys :: ring_sys_iter =>
      graph_string gra;;
      '(zma, ring_rows) ← ring_zmatrix gra ring_keys None None;
      let row_dct := dict_zip ring_keys ring_rows in
      match ring_sys_iter with
      | [] => Raise StopIteration
      | arc_keys :: _ =>
          end_key0 ← list_getitem arc_keys 0;
          end_key1 ← list_last arc_keys;
          end_row0 ← getitem row_dct end_key0;
          end_row1 ← getitem row_dct end_key1;
          end_dist ← zmat_distance zma end_row0 end_row1;
          '(arc_zma, arc_rows) ← ring_zmatrix gra arc_keys None (Some end_dist);
          arc_row1 ← list_getitem arc_rows 1;
          arc_row0 ← list_getitem arc_rows 0;
          arc_rowl ← list_last arc_rows;
          ang1 ← zmat_central_angle arc_zma arc_row1 arc_row0 arc_rowl;
          let dih1 := 90%R in
          let dih2 := 0%R in
          let key3 := end_key0 in
          let key2 := end_key1 in
          row3 ← list_index ring_keys key3;
          row2 ← list_index ring_keys key2;
          let row1 := if (0 <? row2)%nat then row2 - 1 else row2 + 1 in
          let row_mat := [[row2; row1]; [row2]] in
          let val_mat := [[ang1; dih1]; [dih2]] in
          Ok (join_replace_one zma arc_zma row3 row_mat val_mat)
      end
  end.

(** z-matrix for a ring system.  The source converts the z-matrix it has
    built to a geometry, prints both and returns nothing. *)
Definition ring_system_zmatrix (gra : graph)
    (ring_system_decomp_keys : list (list nat)) : result unit :=
  zma ← ring_system_zmatrix_zma gra ring_system_decomp_keys;
  geo ← zmat_geometry zma;
  zmat_string zma;;
  geom_string geo;;
  Ok tt.

End Geom2.

Arguments ring_system_zmatrix root_scalar zmat_distance zmat_central_angle
  graph_string {geometry} zmat_geometry zmat_string geom_string
  gra ring_system_decomp_keys.

(** ** The angle solver in binary64 arithmetic *)

(** Python floats are binary64 numbers, and the arithmetic of the solver
    rounds: the product in its guard, the quotient in its residual, the
    conversion and the subtraction at its end.  Where a property turns on
    that rounding, the real numbers of [_f] and [ring_arc_bond_angle] above
    do not tell what the code does.  The module [B64] states the two
    functions again over Rocq's primitive [float]s, whose operations are
    those of IEEE 754 binary64 with rounding to nearest, ties to even.
    [numpy.sin], the conversion factor of qcelemental and the root finder
    are parameters. *)

#[local] Set Warnings "-inexact-float".

Module B64.

Record RootResults : Type := { converged : bool; root : float }.

(** [float(n)] as Python converts an int operand of a float operation: the
    nearest binary64 number (ties to even), [OverflowError] beyond the
    range *)
Definition float_of_int (n : Z) : result float :=
  let x := SF2Prim (binary_normalize 53 1024 n 0 false) in
  if is_infinity x then Raise OverflowError else Ok x.

(** [n * y] for an int [n] and a float [y] *)
Definition mul_int (n : Z) (y : float) : result float :=
  x ← float_of_int n;
  Ok (x * y)%float.

(** [x / n] for a float [x] and an int [n] *)
Definition div_int (x : float) (n : Z) : result float :=
  y ← float_of_int n;
  if (y =? 0)%float then Raise ZeroDivisionError else Ok (x / y)%float.

(** [x / y] on Python floats *)
Definition pydiv (x y : float) : result float :=
  if (y =? 0)%float then Raise ZeroDivisionError else Ok (x / y)%float.

(** [numpy.pi] *)
Definition numpy_pi : float := 0x1.921fb54442d18p+1%float.

(** The test [end_dist > (num - 1) * bond_dist] of line 123 *)
Definition straight (num : Z) (end_dist bond_dist : float) : result bool :=
  reach ← mul_int (num - 1) bond_dist;
  Ok (reach <? end_dist)%float.

Section Solver.

(** [numpy.sin] on a float *)
Variable numpy_sin : float -> float.

(** [qcelemental.constants.conversion_factor('radian', 'degree')] *)
Variable radian_to_degree : float.

(** [scipy.optimize.root_scalar(f, method='brentq', bracket=[a, b])] *)
Variable root_scalar : (float -> result float) -> float -> float -> result RootResults.

(** The residual [_f]: the quotient of the two sines is a numpy division,
    which does not raise *)
Definition _f (num : Z) (end_dist bond_dist : float) (theta : float) : result float :=
  let theta := if (abs theta <? 0.001)%float then 0.001%float else theta in
  half_alpha ← div_int theta (2 * (num - 1));
  let rhs := (numpy_sin half_alpha / numpy_sin (theta / 2))%float in
  lhs ← pydiv bond_dist end_dist;
  Ok (rhs - lhs)%float.

(** find the bond angle (in degrees) for completing a circular arc between
    points *)
Definition ring_arc_bond_angle (num : Z) (end_dist bond_dist : float) : result float :=
  is_straight ← straight num end_dist bond_dist;
  if is_straight : bool then Ok 180%float
  else
    res_obj ← root_scalar (_f num end_dist bond_dist) 0.01%float (2 * numpy_pi)%float;
    assert (converged res_obj);;
    let theta := (root res_obj * radian_to_degree)%float in
    alpha ← div_int theta (num - 1);
    Ok (180 - alpha)%float.

End Solver.

End B64.

(** ** What is assumed of the root finder *)

(** A converged root lies in the bracket [[a, b]] it was searched in. *)
Definition bracketed (root_scalar : (R -> result R) -> R -> R -> result RootResults)
    : Prop :=
  forall f a b res,
    (a <= b)%R ->
    root_scalar f a b = Ok res -> converged res = true ->
    (a <= root res <= b)%R.

(** Brent's method on a bracket [[a, b]] where the residual is defined and
    continuous and changes sign: it converges, and the root it returns is
    within [xtol] of a zero of the residual in the bracket. *)
Definition brentq_spec (root_scalar : (R -> result R) -> R -> R -> result RootResults)
    (xtol : R) : Prop :=
  forall (f : R -> result R) (g : R -> R) (a b : R),
    (a < b)%R ->
    (forall x, (a <= x <= b)%R -> f x = Ok (g x)) ->
    (forall x, (a <= x <= b)%R -> continuity_pt g x) ->
    (g a * g b < 0)%R ->
    exists res z,
      root_scalar f a b = Ok res /\ converged res = true /\
      (a <= root res <= b)%R /\
      (a <= z <= b)%R /\ g z = 0%R /\ (Rabs (root res - z) <= xtol)%R.

(** The residual [_f] of an arc of three atoms whose end distance equals
    the bond distance, 1.5 (an equilateral triangle) *)
Definition triangle_residual (theta : R) : R :=
  (sin (theta / 4) / sin (theta / 2) - 1.5 / 1.5)%R.

(** [key1 in atom_neighbor_keys(gra)[key2]] *)
Definition bonded (gra : graph) (key1 key2 : nat) : Prop :=
  exists ngb_keys, atom_neighbor_keys gra !! key2 = Some ngb_keys /\ key1 ∈ ngb_keys.

(** The reference a row [i] of a chain or ring holds on the row [d] places
    before it *)
Definition back_ref (i d : nat) : option nat :=
  if decide (d <= i) then Some (i - d) else None.

(** The atom has an entry in the symbol dictionary *)
Definition has_symbol (gra : graph) (key : nat) : Prop :=
  is_Some (atom_symbols gra !! key).

(** Every key of the sequence is bonded to the next one *)
Definition is_path (gra : graph) (keys : list nat) : Prop :=
  forall i key key',
    keys !! i = Some key -> keys !! S i = Some key' -> bonded gra key key'.

(** The same, told along the keys still to place after the key [prev] *)
Fixpoint links (gra : graph) (prev : option nat) (rest : list nat) : Prop :=
  match rest with
  | [] => True
  | key4 :: rest' =>
      (forall key3, prev = Some key3 -> bonded gra key3 key4) /\
      links gra (Some key4) rest'
  end.

(** An atom the chain builder can place: its symbol is an element and its
    dominant hybridization is 1, 2 or 3 *)
Definition placeable (to_Z : string -> result Z) (hybridizations : graph -> gmap nat Z)
    (gra : graph) (key : nat) : Prop :=
  (exists sym z, atom_symbols gra !! key = Some sym /\ to_Z sym = Ok z) /\
  (exists hyb, hybridizations gra !! key = Some hyb /\
               (hyb = 1 \/ hyb = 2 \/ hyb = 3)%Z).

(** The keys of the rolling window have their rows in the row dictionary *)
Definition window_placed (st : loop_state) : Prop :=
  forall key,
    st_key3 st = Some key \/ st_key2 st = Some key \/ st_key1 st = Some key ->
    is_Some (st_row_dct st !! key).


(** ** Examples *)

Module Examples.

(** A periodic table of four elements *)
Definition to_Z (sym : string) : result Z :=
  if decide (sym = "H"%string) then Ok 1%Z
  else if decide (sym = "C"%string) then Ok 6%Z
  else if decide (sym = "N"%string) then Ok 7%Z
  else if decide (sym = "O"%string) then Ok 8%Z
  else Raise NotAnElementError.

(** Every atom sp3 *)
Definition hybridizations (gra : graph) : gmap nat Z :=
  (fun _ => 3%Z) <$> atoms gra.

(** A root finder that stops at the lower end of the bracket *)
Definition lower_end_solver (f : R -> result R) (a b : R) : result RootResults :=
  Ok {| converged := true; root := a |}.

(** A root finder that returns an exact zero of the residual in the bracket
    when there is one *)
Definition exact_solver (f : R -> result R) (a b : R) : result RootResults :=
  match excluded_middle_informative (exists z, (a <= z <= b)%R /\ f z = Ok 0%R) with
  | left Hz =>
      Ok {| converged := true;
            root := proj1_sig (constructive_indefinite_description _ Hz) |}
  | right _ => Ok {| converged := false; root := a |}
  end.

(** Measurements that do not look at the z-matrix: the distance across a
    regular hexagon of side 1.5, and a right angle *)
Definition across_distance (zma : zmatrix) (row1 row2 : nat) : result R :=
  Ok 3%R.
Definition right_angle (zma : zmatrix) (row1 row2 row3 : nat) : result R :=
  Ok 90%R.

Definition single (sym : string) (hyd : nat) : atom := (sym, hyd, None).
Definition sigma : bond := (1, None).

(** The C-H fragment [0: C, 1: H] *)
Definition ch : graph :=
  ({[ 0 := single "C" 3; 1 := single "H" 0 ]},
   {[ ({[0; 1]} : gset nat) := sigma ]}).

(** The heavy atoms of butane, [CCCC] *)
Definition butane : graph :=
  ({[ 0 := single "C" 3; 1 := single "C" 2; 2 := single "C" 2; 3 := single "C" 3 ]},
   {[ ({[0; 1]} : gset nat) := sigma; ({[1; 2]} : gset nat) := sigma;
      ({[2; 3]} : gset nat) := sigma ]}).

(** The heavy atoms of bicyclo[2.2.2]octane: the ring [0 .. 5] and the
    bridge [0 - 6 - 7 - 3] *)
Definition bicyclooctane : graph :=
  ({[ 0 := single "C" 1; 1 := single "C" 2; 2 := single "C" 2;
      3 := single "C" 1; 4 := single "C" 2; 5 := single "C" 2;
      6 := single "C" 2; 7 := single "C" 2 ]},
   {[ ({[0; 1]} : gset nat) := sigma; ({[1; 2]} : gset nat) := sigma;
      ({[2; 3]} : gset nat) := sigma; ({[3; 4]} : gset nat) := sigma;
      ({[4; 5]} : gset nat) := sigma; ({[5; 0]} : gset nat) := sigma;
      ({[0; 6]} : gset nat) := sigma; ({[6; 7]} : gset nat) := sigma;
      ({[7; 3]} : gset nat) := sigma ]}).

(** A conversion and texts that succeed and are not looked at *)
Definition graph_text (gra : graph) : result string := Ok EmptyString.
Definition cartesian (zma : zmatrix) : result unit := Ok tt.
Definition zmat_text (zma : zmatrix) : result string := Ok EmptyString.
Definition geom_text (geo : unit) : result string := Ok EmptyString.

End Examples.

(** ** Further notions *)

(** The value of the residual [_f] where it is defined and not clamped *)
Definition arc_residual (num : Z) (end_dist bond_dist theta : R) : R :=
  (sin (theta / IZR (2 * (num - 1))) / sin (theta / 2) - bond_dist / end_dist)%R.

(** The values row [i] of a chain holds: a heuristic distance from row 1
    on, a heuristic angle from row 2 on, the trans dihedral from row 3 on,
    and [None] before *)
Definition chain_values (i : nat) (vals : list (option R)) : Prop :=
  exists r34 a234 d1234,
    vals = [r34; a234; d1234] /\
    (if decide (1 <= i) then r34 = Some XH_DIST \/ r34 = Some XY_DIST
     else r34 = None) /\
    (if decide (2 <= i)
     then a234 = Some TET_ANG \/ a234 = Some TRI_ANG \/ a234 = Some LIN_ANG
     else a234 = None) /\
    (if decide (3 <= i) then d1234 = Some TRA_DIH else d1234 = None).

(** The rolling window of the loop of [chain_zmatrix] by the number of rows
    built so far: which keys are set, and the values that stay [None] until
    their key is *)
Record window_inv (st : loop_state) : Prop := {
  win_key3 : st_key3 st = None <-> length (st_zma st) = 0;
  win_key2 : st_key2 st = None <-> length (st_zma st) <= 1;
  win_key1 : st_key1 st = None <-> length (st_zma st) <= 2;
  win_r34 : st_key3 st = None -> st_r34 st = None;
  win_a234 : st_key2 st = None -> st_a234 st = None;
  win_d1234 : st_key1 st = None -> st_d1234 st = None
}.

(** The state of the loop of [ring_zmatrix] once the distinct keys [placed]
    (the last one first) have been placed *)
Record ring_inv (gra : graph) (st : loop_state) (placed : list nat) : Prop := {
  rinv_count : length (st_zma st) = length placed;
  rinv_rows : forall j key,
    placed !! j = Some key -> st_row_dct st !! key = Some (length placed - 1 - j);
  rinv_key3 : st_key3 st = placed !! 0;
  rinv_key2 : st_key2 st = placed !! 1;
  rinv_key1 : st_key1 st = placed !! 2;
  rinv_row3 : st_key3 st = None -> st_row3 st = None;
  rinv_row2 : st_key2 st = None -> st_row2 st = None;
  rinv_row1 : st_key1 st = None -> st_row1 st = None;
  rinv_syms :
    Forall2 (fun key row => atom_symbols gra !! key = Some (row_sym row))
            (reverse placed) (st_zma st);
  rinv_refs : forall i row,
    st_zma st !! i = Some row ->
    key_row row = [back_ref i 1; back_ref i 2; back_ref i 3]
}.

Module MoreExamples.

(** A root finder that gives up *)
Definition stalled_solver (f : R -> result R) (a b : R) : result RootResults :=
  Ok {| converged := false; root := a |}.

(** Binary64 root finders: one that refuses the bracket, as brentq does
    with [ValueError] when the residual has the same sign at both ends, and
    one that stops at the lower end of the bracket *)
Definition refusing_solver (f : float -> result float) (a b : float)
    : result B64.RootResults :=
  Raise ValueError.
Definition lower_end_solver64 (f : float -> result float) (a b : float)
    : result B64.RootResults :=
  Ok {| B64.converged := true; B64.root := a |}.

(** The binary64 number nearest to [180 / pi] *)
Definition radian_to_degree64 : float := 0x1.ca5dc1a63c1f8p+5%float.

(** A stand-in for [numpy.sin] where the residual is not evaluated *)
Definition no_sine (x : float) : float := x.

(** The z-matrix of the butane chain [0; 1; 2; 3] *)
Definition butane_zma : zmatrix :=
  [ ZRow "C" [None; None; None] [None; None; None];
    ZRow "C" [Some 0; None; None] [Some XY_DIST; None; None];
    ZRow "C" [Some 1; Some 0; None] [Some XY_DIST; Some TET_ANG; None];
    ZRow "C" [Some 2; Some 1; Some 0] [Some XY_DIST; Some TET_ANG; Some TRA_DIH] ].

End MoreExamples.

(** ** Fallible computations *)

Lemma bind_Ok_inv {A B} (m : result A) (k : A -> result B) (b : B) :
  m ≫= k = Ok b -> exists a, m = Ok a /\ k a = Ok b.
Proof. destruct m as [a|e]; [eauto | discriminate]. Qed.

Lemma getitem_Some `{Countable K} {V} (dct : gmap K V) (key : K) (v : V) :
  dct !! key = Some v -> getitem dct key = Ok v.
Proof. unfold getitem. now intros ->. Qed.

Lemma getitem_Ok_inv `{Countable K} {V} (dct : gmap K V) (key : K) (v : V) :
  getitem dct key = Ok v -> dct !! key = Some v.
Proof. unfold getitem. destruct (dct !! key); congruence. Qed.

Lemma assert_true (b : bool) : b = true -> assert b = Ok tt.
Proof. now intros ->. Qed.

Lemma pydiv_Ok (x y : R) : y <> 0%R -> pydiv x y = Ok (x / y)%R.
Proof. unfold pydiv. destruct (Req_dec_T y 0); [contradiction | reflexivity]. Qed.

(** Dividing two lengths scaled by the same nonzero factor *)
Lemma pydiv_scale (c x y : R) : c <> 0%R -> pydiv (c * x) (c * y) = pydiv x y.
Proof.
  intros Hc. unfold pydiv.
  destruct (Req_dec_T (c * y) 0) as [Hcy|Hcy], (Req_dec_T y 0) as [Hy|Hy].
  - reflexivity.
  - apply Rmult_integral in Hcy as [?|?]; contradiction.
  - subst y. rewrite Rmult_0_r in Hcy. contradiction.
  - f_equal. field. split; assumption.
Qed.

(** ** The graph *)

(** What [bonded] means on the bond dictionary *)
Lemma bonded_iff (gra : graph) (key1 key2 : nat) :
  bonded gra key1 key2 <->
  is_Some (atoms gra !! key2) /\ key1 <> key2 /\
  exists bnd_key, bnd_key ∈ bond_keys gra /\ key2 ∈ bnd_key /\ key1 ∈ bnd_key.
Proof.
  unfold bonded, atom_neighbor_keys. rewrite map_lookup_imap. split.
  - intros (ngb & Hngb & Hin). destruct (atoms gra !! key2) as [atm|]; [|discriminate].
    simpl in Hngb. injection Hngb as <-.
    apply elem_of_difference in Hin as [Hin Hne].
    apply elem_of_union_list in Hin as (bnd_key & Hbk & Hin).
    apply list_elem_of_filter in Hbk as [Hk2 Hbk]. apply elem_of_elements in Hbk.
    split; [eauto|]. split; [|eauto].
    intros ->. apply Hne. now apply elem_of_singleton.
  - intros ([atm Hatm] & Hne & bnd_key & Hbk & Hk2 & Hk1).
    rewrite Hatm. simpl. eexists. split; [reflexivity|].
    apply elem_of_difference. split.
    + apply elem_of_union_list. exists bnd_key. split; [|exact Hk1].
      apply list_elem_of_filter. split; [exact Hk2 | now apply elem_of_elements].
    + intros Heq%elem_of_singleton. contradiction.
Qed.

Lemma bonded_sym (gra : graph) (key1 key2 : nat) :
  bonded gra key1 key2 -> is_Some (atoms gra !! key1) -> bonded gra key2 key1.
Proof.
  rewrite !bonded_iff. intros (_ & Hne & bnd_key & Hbk & Hk2 & Hk1) Hatm.
  split; [exact Hatm|]. split; [congruence|]. eauto.
Qed.

(** Over all the keys of a dictionary, [by_key_by_position] reads the
    component of every value. *)
Lemma by_key_by_position_lookup `{Countable K} {V C : Type}
    (dct : gmap K V) (pos : V -> C) (key : K) :
  by_key_by_position dct (dom dct) pos !! key = pos <$> dct !! key.
Proof.
  unfold by_key_by_position. rewrite lookup_fmap. f_equal.
  destruct (dct !! key) as [v|] eqn:Hkey.
  - apply map_lookup_filter_Some. split; [exact Hkey|].
    simpl. apply elem_of_dom. eauto.
  - apply map_lookup_filter_None. left. exact Hkey.
Qed.

Lemma atom_symbols_lookup (gra : graph) (key : nat) :
  atom_symbols gra !! key = ATM_SYM_POS <$> atoms gra !! key.
Proof. apply by_key_by_position_lookup. Qed.

Lemma has_symbol_atom (gra : graph) (key : nat) :
  has_symbol gra key -> is_Some (atoms gra !! key).
Proof.
  unfold has_symbol. rewrite atom_symbols_lookup.
  destruct (atoms gra !! key); [eauto | intros [? ?]; discriminate].
Qed.

(** ** The heuristic parameter model *)

Section Heuristics.

Variable to_Z : string -> result Z.
Variable hybridizations : graph -> gmap nat Z.

Lemma check_bonded (gra : graph) (key1 key2 : nat) (check : bool) :
  bonded gra key1 key2 ->
  (if check then
     ngb_keys ← getitem (atom_neighbor_keys gra) key2;
     assert (bool_decide (key1 ∈ ngb_keys))
   else Ok tt) = Ok tt.
Proof.
  intros (ngb & Hngb & Hin). destruct check; [|reflexivity].
  rewrite (getitem_Some _ _ _ Hngb). simpl.
  apply assert_true, bool_decide_eq_true_2, Hin.
Qed.

Lemma check_bonded_pair (gra : graph) (key1 key2 key3 : nat) (check : bool) :
  bonded gra key1 key2 -> bonded gra key3 key2 ->
  (if check then
     ngb_keys ← getitem (atom_neighbor_keys gra) key2;
     assert (bool_decide (({[key1; key3]} : gset nat) ⊆ ngb_keys))
   else Ok tt) = Ok tt.
Proof.
  intros (ngb & Hngb & Hin1) (ngb' & Hngb' & Hin3). destruct check; [|reflexivity].
  assert (ngb' = ngb) as -> by congruence.
  rewrite (getitem_Some _ _ _ Hngb). simpl.
  apply assert_true, bool_decide_eq_true_2.
  intros key [->%elem_of_singleton | ->%elem_of_singleton]%elem_of_union; assumption.
Qed.

(** C9.  For a bonded pair of atoms whose symbols are elements,
    [heuristic_bond_distance] returns the X-H constant [XH_DIST] when one of
    the two atomic numbers is 1 and the heavy-atom constant [XY_DIST]
    otherwise. *)
Theorem heuristic_bond_distance_two_constants
    (gra : graph) (key1 key2 : nat) (check : bool) (sym1 sym2 : string) (z1 z2 : Z) :
  bonded gra key1 key2 ->
  atom_symbols gra !! key1 = Some sym1 ->
  atom_symbols gra !! key2 = Some sym2 ->
  to_Z sym1 = Ok z1 ->
  to_Z sym2 = Ok z2 ->
  heuristic_bond_distance to_Z gra key1 key2 check =
    Ok (if decide (z1 = 1%Z \/ z2 = 1%Z) then XH_DIST else XY_DIST).
Proof.
  intros Hbnd Hsym1 Hsym2 Hz1 Hz2. unfold heuristic_bond_distance.
  rewrite (check_bonded _ _ _ _ Hbnd). simpl.
  rewrite (getitem_Some _ _ _ Hsym1), (getitem_Some _ _ _ Hsym2). simpl.
  rewrite Hz1. simpl.
  destruct (Z.eqb_spec z1 1) as [->|Hne1].
  - rewrite decide_True by (now left). reflexivity.
  - rewrite Hz2. simpl. destruct (Z.eqb_spec z2 1) as [->|Hne2].
    + rewrite decide_True by (now right). reflexivity.
    + rewrite decide_False by (intros [?|?]; contradiction). reflexivity.
Qed.

(** C8.  For a centre bonded to both other atoms, [heuristic_bond_angle]
    returns 109.4712 degrees when the dominant hybridization of the centre
    is 3, 120 degrees when it is 2, 180 degrees when it is 1, and it fails
    (its assertion does) for any other hybridization. *)
Theorem heuristic_bond_angle_by_hybridization
    (gra : graph) (key1 key2 key3 : nat) (check : bool) (hyb2 : Z) :
  bonded gra key1 key2 ->
  bonded gra key3 key2 ->
  hybridizations gra !! key2 = Some hyb2 ->
  (hyb2 = 3%Z ->
   heuristic_bond_angle hybridizations gra key1 key2 key3 check = Ok 109.4712%R) /\
  (hyb2 = 2%Z ->
   heuristic_bond_angle hybridizations gra key1 key2 key3 check = Ok 120%R) /\
  (hyb2 = 1%Z ->
   heuristic_bond_angle hybridizations gra key1 key2 key3 check = Ok 180%R) /\
  (hyb2 <> 1%Z -> hyb2 <> 2%Z -> hyb2 <> 3%Z ->
   heuristic_bond_angle hybridizations gra key1 key2 key3 check = Raise AssertionError).
Proof.
  intros Hbnd1 Hbnd3 Hhyb. unfold heuristic_bond_angle.
  rewrite (check_bonded_pair _ _ _ _ _ Hbnd1 Hbnd3). simpl.
  rewrite (getitem_Some _ _ _ Hhyb). simpl.
  repeat split.
  - intros ->. reflexivity.
  - intros ->. reflexivity.
  - intros ->. reflexivity.
  - intros H1 H2 H3.
    destruct (Z.eqb_spec hyb2 3); [contradiction|].
    destruct (Z.eqb_spec hyb2 2); [contradiction|].
    destruct (Z.eqb_spec hyb2 1); [contradiction|]. reflexivity.
Qed.

Lemma placeable_has_symbol (gra : graph) (key : nat) :
  placeable to_Z hybridizations gra key -> has_symbol gra key.
Proof. intros [(sym & z & Hsym & _) _]. now exists sym. Qed.

Lemma heuristic_bond_distance_Ok (gra : graph) (key1 key2 : nat) (check : bool) :
  bonded gra key1 key2 ->
  placeable to_Z hybridizations gra key1 -> placeable to_Z hybridizations gra key2 ->
  exists dist, heuristic_bond_distance to_Z gra key1 key2 check = Ok dist.
Proof.
  intros Hbnd [(sym1 & z1 & Hsym1 & Hz1) _] [(sym2 & z2 & Hsym2 & Hz2) _].
  unfold heuristic_bond_distance.
  rewrite (check_bonded _ _ _ _ Hbnd). simpl.
  rewrite (getitem_Some _ _ _ Hsym1), (getitem_Some _ _ _ Hsym2). simpl.
  rewrite Hz1. simpl. destruct (z1 =? 1)%Z; [eauto|].
  rewrite Hz2. simpl. destruct (z2 =? 1)%Z; eauto.
Qed.

Lemma heuristic_bond_angle_Ok (gra : graph) (key1 key2 key3 : nat) (check : bool) :
  bonded gra key1 key2 -> bonded gra key3 key2 ->
  placeable to_Z hybridizations gra key2 ->
  exists ang, heuristic_bond_angle hybridizations gra key1 key2 key3 check = Ok ang.
Proof.
  intros Hbnd1 Hbnd3 [_ (hyb & Hhyb & Hcases)]. unfold heuristic_bond_angle.
  rewrite (check_bonded_pair _ _ _ _ _ Hbnd1 Hbnd3). simpl.
  rewrite (getitem_Some _ _ _ Hhyb). simpl.
  destruct Hcases as [-> | [-> | ->]]; simpl; eauto.
Qed.

End Heuristics.

(** A C-H pair takes the X-H length. *)
Lemma heuristic_bond_distance_two_constants_witness :
  heuristic_bond_distance Examples.to_Z Examples.ch 0 1 true = Ok XH_DIST.
Proof.
  apply (heuristic_bond_distance_two_constants
           Examples.to_Z Examples.ch 0 1 true "C" "H" 6 1).
  - exists {[0]}. split; [vm_compute; reflexivity | now apply elem_of_singleton].
  - reflexivity.
  - reflexivity.
  - reflexivity.
  - reflexivity.
Defined.

(** The second carbon of butane is sp3 in the example classification. *)
Lemma heuristic_bond_angle_by_hybridization_witness :
  heuristic_bond_angle Examples.hybridizations Examples.butane 0 1 2 true
  = Ok 109.4712%R.
Proof.
  apply (heuristic_bond_angle_by_hybridization
           Examples.hybridizations Examples.butane 0 1 2 true 3).
  - exists {[0; 2]}. split; [vm_compute; reflexivity | apply elem_of_union; left].
    now apply elem_of_singleton.
  - exists {[0; 2]}. split; [vm_compute; reflexivity | apply elem_of_union; right].
    now apply elem_of_singleton.
  - reflexivity.
  - reflexivity.
Defined.

(** ** The ring-closure angle solver *)

Local Open Scope R_scope.

(** The float [numpy.pi] lies strictly below the real number. *)
Lemma numpy_pi_lt_PI : numpy_pi < PI.
Proof.
  pose proof (PI_2_3_7_ineq 7) as [Hlow _].
  unfold numpy_pi.
  cbv [sum_f_R0 tg_alt PI_2_3_7_tg Ratan_seq Nat.mul Nat.add] in Hlow.
  rewrite ?INR_IZR_INZ in Hlow.
  cbv [Z.of_nat Pos.of_succ_nat Pos.succ] in Hlow.
  lra.
Qed.

Lemma numpy_pi_gt_3 : 3 < numpy_pi.
Proof. unfold numpy_pi. lra. Qed.

Lemma PI_gt_3 : 3 < PI.
Proof. pose proof PI2_3_2. lra. Qed.

Lemma cos_eq_on_0_PI (x y : R) :
  0 <= x <= PI -> 0 <= y <= PI -> cos x = cos y -> x = y.
Proof.
  intros Hx Hy Heq.
  destruct (Rtotal_order x y) as [Hlt|[Heq'|Hgt]]; [exfalso | assumption | exfalso].
  - pose proof (cos_decreasing_1 x y). lra.
  - pose proof (cos_decreasing_1 y x). lra.
Qed.

(** On the bracket the residual of the equilateral triangle is defined: no
    clamping, no division by zero. *)
Lemma triangle_f_eq (theta : R) :
  0.01 <= theta <= 2 * numpy_pi ->
  _f 3 1.5 1.5 theta = Ok (triangle_residual theta).
Proof.
  intros Hth. unfold _f, triangle_residual.
  destruct (Rlt_dec (Rabs theta) 0.001) as [Habs|_].
  { rewrite Rabs_pos_eq in Habs by lra. lra. }
  change (IZR (2 * (3 - 1))) with 4.
  rewrite pydiv_Ok by lra. simpl.
  rewrite pydiv_Ok by lra. reflexivity.
Qed.

(** By the double-angle formula the residual is [1 / (2 cos (theta/4)) - 1]. *)
Lemma triangle_residual_cos (theta : R) :
  0.01 <= theta <= 2 * numpy_pi ->
  0 < cos (theta / 4) /\
  triangle_residual theta = / (2 * cos (theta / 4)) - 1.
Proof.
  intros Hth. pose proof numpy_pi_lt_PI as Hpi.
  assert (0 < cos (theta / 4)) as Hcos by (apply cos_gt_0; lra).
  assert (0 < sin (theta / 4)) as Hsin by (apply sin_gt_0; lra).
  split; [assumption|]. unfold triangle_residual.
  replace (theta / 2) with (2 * (theta / 4)) by field.
  rewrite sin_2a. field. split; lra.
Qed.

Lemma triangle_residual_continuous (theta : R) :
  0.01 <= theta <= 2 * numpy_pi -> continuity_pt triangle_residual theta.
Proof.
  intros Hth. pose proof numpy_pi_lt_PI as Hpi.
  assert (sin (theta / 2) <> 0) as Hsin.
  { apply Rgt_not_eq, sin_gt_0; lra. }
  unfold triangle_residual. reg.
Qed.

(** The only zero of the residual in the bracket is [4 PI / 3]. *)
Lemma triangle_residual_root (z : R) :
  0.01 <= z <= 2 * numpy_pi -> triangle_residual z = 0 -> z = 4 * PI / 3.
Proof.
  intros Hz Hroot. pose proof numpy_pi_lt_PI as Hpi.
  destruct (triangle_residual_cos z Hz) as [Hcos Heq].
  rewrite Heq in Hroot.
  assert (cos (z / 4) = cos (PI / 3)) as Hc.
  { rewrite cos_PI3. apply Rmult_eq_reg_l with 2; [|lra].
    apply Rinv_eq_reg. replace (2 * (1 / 2)) with 1 by field.
    rewrite Rinv_1. lra. }
  apply cos_eq_on_0_PI in Hc; lra.
Qed.

(** The residual is negative at 0.01 and positive at [2 * numpy.pi]. *)
Lemma triangle_residual_signs :
  triangle_residual 0.01 * triangle_residual (2 * numpy_pi) < 0.
Proof.
  pose proof numpy_pi_lt_PI as Hpi. pose proof numpy_pi_gt_3 as Hpi3.
  pose proof PI_gt_3 as HPI. pose proof PI_4 as HPI4.
  destruct (triangle_residual_cos 0.01) as [Hca Ha]; [lra|].
  destruct (triangle_residual_cos (2 * numpy_pi)) as [Hcb Hb]; [lra|].
  rewrite Ha, Hb.
  assert (cos (PI / 3) < cos (0.01 / 4)) as H1 by (apply cos_decreasing_1; lra).
  assert (cos (2 * numpy_pi / 4) < cos (PI / 3)) as H2 by (apply cos_decreasing_1; lra).
  rewrite cos_PI3 in H1, H2.
  assert (/ (2 * cos (0.01 / 4)) < 1) as Hlo.
  { rewrite <- Rinv_1. apply Rinv_lt_contravar; lra. }
  assert (1 < / (2 * cos (2 * numpy_pi / 4))) as Hhi.
  { rewrite <- Rinv_1 at 1. apply Rinv_lt_contravar; lra. }
  nra.
Qed.

(** The residual depends on the two distances through their ratio only. *)
Lemma _f_scale (num : Z) (c end_dist bond_dist : R) :
  c <> 0 -> _f num (c * end_dist) (c * bond_dist) = _f num end_dist bond_dist.
Proof.
  intros Hc. unfold _f. rewrite (pydiv_scale c bond_dist end_dist Hc). reflexivity.
Qed.

(** The two example root finders meet what is assumed of Brent's method. *)
Lemma lower_end_solver_bracketed : bracketed Examples.lower_end_solver.
Proof.
  intros f a b res Hab Hres _. unfold Examples.lower_end_solver in Hres.
  injection Hres as <-. simpl. lra.
Qed.

Lemma exact_solver_spec (xtol : R) :
  0 <= xtol -> brentq_spec Examples.exact_solver xtol.
Proof.
  intros Hxtol f g a b Hab Hfg Hcont Hsign.
  assert (exists z, a <= z <= b /\ f z = Ok 0) as Hz.
  { destruct (Rtotal_order (g a) 0) as [Ha|[Ha|Ha]].
    - assert (0 < g b) as Hb by nra.
      destruct (IVT_interv g a b) as (z & Hz & Hgz); [assumption.. |].
      exists z. split; [assumption|]. rewrite Hfg by assumption. now rewrite Hgz.
    - rewrite Ha in Hsign. lra.
    - assert (g b < 0) as Hb by nra.
      destruct (IVT_interv (- g)%F a b) as (z & Hz & Hgz).
      + intros x Hx. apply continuity_pt_opp, Hcont, Hx.
      + assumption.
      + unfold opp_fct. lra.
      + unfold opp_fct. lra.
      + exists z. split; [assumption|]. rewrite Hfg by assumption.
        unfold opp_fct in Hgz. f_equal. lra. }
  unfold Examples.exact_solver.
  destruct (excluded_middle_informative _) as [Hz'|Hnz]; [|contradiction].
  destruct (constructive_indefinite_description _ Hz') as (z & Hzab & Hfz). simpl.
  eexists _, z. split; [reflexivity|]. simpl.
  rewrite Hfg in Hfz by assumption. injection Hfz as Hgz.
  repeat split; try tauto; try lra.
  replace (z - z) with 0 by ring. rewrite Rabs_R0. assumption.
Qed.

Section Solver.

Variable root_scalar : (R -> result R) -> R -> R -> result RootResults.

(** Where the guard holds the root finder is not called. *)
Lemma ring_arc_bond_angle_guard (num : Z) (end_dist bond_dist : R) :
  end_dist > IZR (num - 1) * bond_dist ->
  ring_arc_bond_angle root_scalar num end_dist bond_dist = Ok 180.
Proof.
  intros Hgt. unfold ring_arc_bond_angle.
  now destruct (Rgt_dec end_dist (IZR (num - 1) * bond_dist)).
Qed.

(** At the boundary the guard is not taken: the angle comes from a root in
    the bracket, which starts at 0.01, and is below 180 degrees. *)
Lemma ring_arc_bond_angle_boundary_pair (end_dist : R) :
  bracketed root_scalar ->
  ring_arc_bond_angle root_scalar 2 end_dist end_dist <> Ok 180.
Proof.
  intros Hbr. unfold ring_arc_bond_angle.
  change (IZR (2 - 1)) with 1.
  destruct (Rgt_dec end_dist (1 * end_dist)) as [Hgt|_]; [lra|].
  destruct (root_scalar _ _ _) as [res|err] eqn:Hres; [|discriminate]. simpl.
  destruct (converged res) eqn:Hconv; [|discriminate]. simpl.
  rewrite pydiv_Ok by lra. simpl. intros Heq. injection Heq as Heq.
  pose proof numpy_pi_gt_3 as Hpi3. pose proof PI_gt_3 as HPI.
  assert (0.01 <= 2 * numpy_pi) as Hab by lra.
  destruct (Hbr _ _ _ _ Hab Hres Hconv) as [Hlo _].
  assert (0 < root res * radian_to_degree) as Hpos.
  { apply Rmult_lt_0_compat; [lra|]. unfold radian_to_degree.
    apply Rdiv_lt_0_compat; lra. }
  lra.
Qed.

(** C3, as amended.  With one atom and a positive end distance the guard
    [end_dist > 0 * bond_dist] holds, and [ring_arc_bond_angle] returns 180
    degrees: it raises nothing. *)
Theorem ring_arc_bond_angle_single_atom (end_dist bond_dist : R) :
  0 < end_dist ->
  ring_arc_bond_angle root_scalar 1 end_dist bond_dist = Ok 180.
Proof.
  intros Hpos. apply ring_arc_bond_angle_guard.
  change (IZR (1 - 1)) with 0. lra.
Qed.

(** Over the real numbers, where nothing is rounded, a common positive
    scaling of the two distances changes neither the guard nor the
    residual. *)
Lemma ring_arc_bond_angle_scale_exact (num : Z) (c end_dist bond_dist : R) :
  0 < c ->
  ring_arc_bond_angle root_scalar num (c * end_dist) (c * bond_dist)
  = ring_arc_bond_angle root_scalar num end_dist bond_dist.
Proof.
  intros Hc. unfold ring_arc_bond_angle.
  rewrite _f_scale by lra.
  destruct (Rgt_dec (c * end_dist) _) as [H1|H1], (Rgt_dec end_dist _) as [H2|H2];
    try reflexivity; exfalso.
  - apply H2. apply Rmult_lt_reg_l with c; [assumption|]. lra.
  - apply H1. apply Rmult_gt_compat_l with (r := c) in H2; lra.
Qed.

(** C4.  For three atoms with bond distance 1.5 and end distance 1.5,
    [ring_arc_bond_angle] returns an angle within 1e-4 of 60 degrees,
    provided the root finder meets the contract of Brent's method with an
    absolute tolerance of at most 1e-6 radians. *)
Theorem ring_arc_bond_angle_equilateral (xtol : R) :
  brentq_spec root_scalar xtol -> xtol <= 0.000001 ->
  exists ang,
    ring_arc_bond_angle root_scalar 3 1.5 1.5 = Ok ang /\
    Rabs (ang - 60) <= 0.0001.
Proof.
  intros Hspec Hxtol. pose proof numpy_pi_gt_3 as Hpi3. pose proof PI_gt_3 as HPI.
  destruct (Hspec (_f 3 1.5 1.5) triangle_residual 0.01 (2 * numpy_pi))
    as (res & z & Hres & Hconv & _ & Hz & Hroot & Hnear).
  { lra. }
  { apply triangle_f_eq. }
  { apply triangle_residual_continuous. }
  { apply triangle_residual_signs. }
  apply triangle_residual_root in Hroot; [subst z | assumption].
  unfold ring_arc_bond_angle.
  destruct (Rgt_dec 1.5 (IZR (3 - 1) * 1.5)) as [Hgt|_].
  { change (IZR (3 - 1)) with 2 in Hgt. lra. }
  rewrite Hres. simpl. rewrite Hconv. simpl.
  change (IZR (3 - 1)) with 2. rewrite pydiv_Ok by lra. simpl.
  eexists. split; [reflexivity|].
  unfold radian_to_degree.
  replace (180 - root res * (180 / PI) / 2 - 60)
    with (- (90 / PI) * (root res - 4 * PI / 3)) by (field; lra).
  rewrite Rabs_mult, Rabs_Ropp, (Rabs_pos_eq (90 / PI)).
  2:{ apply Rlt_le, Rdiv_lt_0_compat; lra. }
  assert (90 / PI < 30) as HK.
  { apply Rmult_lt_reg_r with PI; [lra|].
    unfold Rdiv. rewrite Rmult_assoc, Rinv_l; lra. }
  assert (0 < 90 / PI) as HK0 by (apply Rdiv_lt_0_compat; lra).
  pose proof (Rabs_pos (root res - 4 * PI / 3)). nra.
Qed.

End Solver.

Lemma ring_arc_bond_angle_single_atom_witness :
  ring_arc_bond_angle Examples.lower_end_solver 1 1.5 1.5 = Ok 180.
Proof.
  apply (ring_arc_bond_angle_single_atom Examples.lower_end_solver 1.5 1.5). lra.
Defined.

(** C3 fails for one atom and the default distances: the call returns 180
    degrees, with any root finder, so it is not true that it always
    raises. *)
Lemma ring_arc_bond_angle_single_atom_counterexample :
  (forall root_scalar, ring_arc_bond_angle root_scalar 1 XY_DIST XY_DIST = Ok 180) /\
  ~ (forall root_scalar end_dist bond_dist,
       exists err, ring_arc_bond_angle root_scalar 1 end_dist bond_dist = Raise err).
Proof.
  assert (forall root_scalar,
            ring_arc_bond_angle root_scalar 1 XY_DIST XY_DIST = Ok 180) as Hret.
  { intros root_scalar. unfold XY_DIST, ring_arc_bond_angle.
    change (IZR (1 - 1)) with 0.
    destruct (Rgt_dec 1.5 (0 * 1.5)) as [_|Hle]; [reflexivity | lra]. }
  split; [exact Hret|].
  intros Hraise.
  destruct (Hraise Examples.lower_end_solver XY_DIST XY_DIST) as [err Herr].
  rewrite Hret in Herr. discriminate.
Qed.

Lemma ring_arc_bond_angle_equilateral_witness :
  exists ang,
    ring_arc_bond_angle Examples.exact_solver 3 1.5 1.5 = Ok ang /\
    Rabs (ang - 60) <= 0.0001.
Proof.
  apply (ring_arc_bond_angle_equilateral Examples.exact_solver 0).
  - apply exact_solver_spec. lra.
  - lra.
Defined.

Local Close Scope R_scope.

(** ** The ring-closure angle in binary64 arithmetic *)

Section SolverB64.

Variable numpy_sin : float -> float.
Variable radian_to_degree : float.

(** Where the test holds the root finder is not called. *)
Lemma ring_arc_bond_angle_b64_guard
    (root_scalar : (float -> result float) -> float -> float -> result B64.RootResults)
    (num : Z) (end_dist bond_dist : float) :
  B64.straight num end_dist bond_dist = Ok true ->
  B64.ring_arc_bond_angle numpy_sin radian_to_degree root_scalar num end_dist bond_dist
  = Ok 180%float.
Proof. intros Hstraight. unfold B64.ring_arc_bond_angle. now rewrite Hstraight. Qed.

(** Where the test fails the exception of a root finder that raises is
    the exception of the call. *)
Lemma ring_arc_bond_angle_b64_refused (num : Z) (end_dist bond_dist : float) :
  B64.straight num end_dist bond_dist = Ok false ->
  B64.ring_arc_bond_angle numpy_sin radian_to_degree MoreExamples.refusing_solver
    num end_dist bond_dist
  = Raise ValueError.
Proof. intros Hstraight. unfold B64.ring_arc_bond_angle. now rewrite Hstraight. Qed.

(** C2, as amended.  [ring_arc_bond_angle] returns exactly 180 degrees
    whatever the root finder does exactly when the test
    [end_dist > (num - 1) * bond_dist] of the code holds, strictly and with
    the product as binary64 arithmetic rounds it.  When the test does not
    hold, the boundary [end_dist = (num - 1) * bond_dist] included, the
    result is the root finder's and 180 degrees are not guaranteed. *)
Theorem ring_arc_bond_angle_straight (num : Z) (end_dist bond_dist : float) :
  (forall root_scalar,
     B64.ring_arc_bond_angle numpy_sin radian_to_degree root_scalar
       num end_dist bond_dist = Ok 180%float)
  <-> B64.straight num end_dist bond_dist = Ok true.
Proof.
  split.
  - intros Hall. specialize (Hall MoreExamples.refusing_solver).
    unfold B64.ring_arc_bond_angle in Hall.
    destruct (B64.straight num end_dist bond_dist) as [[|]|err];
      [reflexivity | discriminate | discriminate].
  - intros Hstraight root_scalar. now apply ring_arc_bond_angle_b64_guard.
Qed.


End SolverB64.

(** An end distance of 4 is longer than two bonds of 1.5. *)
Lemma ring_arc_bond_angle_straight_witness :
  B64.ring_arc_bond_angle MoreExamples.no_sine MoreExamples.radian_to_degree64
    MoreExamples.lower_end_solver64 3 4 1.5 = Ok 180%float.
Proof.
  apply (proj2 (ring_arc_bond_angle_straight MoreExamples.no_sine
                  MoreExamples.radian_to_degree64 3 4 1.5)).
  reflexivity.
Defined.

(** C2 fails at its boundary: two atoms whose end distance equals the bond
    distance, 1.5.  The claim's hypotheses hold there (the product
    [(2 - 1) * 1.5] is 1.5), the test of the code fails, and the result is
    the root finder's: [ValueError] from one that refuses the bracket, an
    angle below 180 degrees from one that stops at the lower end of the
    bracket. *)
Lemma ring_arc_bond_angle_boundary_counterexample :
  (2 <= 2)%Z /\ (0 <? 1.5)%float = true /\
  B64.mul_int (2 - 1) 1.5 = Ok 1.5%float /\ (1.5 <=? 1.5)%float = true /\
  B64.straight 2 1.5 1.5 = Ok false /\
  (forall numpy_sin radian_to_degree,
     B64.ring_arc_bond_angle numpy_sin radian_to_degree MoreExamples.refusing_solver
       2 1.5 1.5 = Raise ValueError) /\
  (exists ang,
     (forall numpy_sin,
        B64.ring_arc_bond_angle numpy_sin MoreExamples.radian_to_degree64
          MoreExamples.lower_end_solver64 2 1.5 1.5 = Ok ang) /\
     (ang <? 180)%float = true) /\
  ~ (forall numpy_sin radian_to_degree root_scalar
            (num : Z) (end_dist bond_dist reach : float),
       (2 <= num)%Z ->
       (0 <? end_dist)%float = true -> (0 <? bond_dist)%float = true ->
       B64.mul_int (num - 1) bond_dist = Ok reach ->
       (reach <=? end_dist)%float = true ->
       B64.ring_arc_bond_angle numpy_sin radian_to_degree root_scalar
         num end_dist bond_dist = Ok 180%float).
Proof.
  assert (forall numpy_sin radian_to_degree,
            B64.ring_arc_bond_angle numpy_sin radian_to_degree
              MoreExamples.refusing_solver 2 1.5 1.5 = Raise ValueError) as Hraise.
  { intros numpy_sin radian_to_degree. now apply ring_arc_bond_angle_b64_refused. }
  split; [lia|]. split; [reflexivity|]. split; [reflexivity|]. split; [reflexivity|].
  split; [reflexivity|]. split; [exact Hraise|]. split.
  - exists (180 - 0.01 * MoreExamples.radian_to_degree64 / 1)%float.
    split; [intros numpy_sin; reflexivity | reflexivity].
  - intros Hall.
    specialize (Hall MoreExamples.no_sine MoreExamples.radian_to_degree64
                  MoreExamples.refusing_solver 2%Z 1.5%float 1.5%float 1.5%float).
    rewrite Hraise in Hall. discriminate Hall; reflexivity || lia.
Qed.



(** ** The chain builder *)

Section Chain.

Variable to_Z : string -> result Z.
Variable hybridizations : graph -> gmap nat Z.

Lemma back_ref_Some (i d : nat) : d <= i -> back_ref i d = Some (i - d).
Proof. intros Hle. unfold back_ref. now rewrite decide_True. Qed.

Lemma back_ref_None (i d : nat) : i < d -> back_ref i d = None.
Proof. intros Hlt. unfold back_ref. rewrite decide_False; [reflexivity | lia]. Qed.




Lemma mapM_getitem_seq (row_dct : gmap nat nat) (keys : list nat) (first : nat) :
  (forall i key, keys !! i = Some key -> row_dct !! key = Some (first + i)) ->
  mapM (getitem row_dct) keys = Ok (seq first (length keys)).
Proof.
  revert first. induction keys as [|key keys IH]; intros first Hrows; [reflexivity|].
  simpl. rewrite (getitem_Some _ _ first).
  2:{ rewrite (Hrows 0 key eq_refl). f_equal. lia. }
  simpl. rewrite (IH (S first)); [reflexivity|].
  intros i key' Hi. rewrite (Hrows (S i) key' Hi). f_equal. lia.
Qed.

Lemma row_refs_back_ref (i : nat) (row : zrow) :
  key_row row = [back_ref i 1; back_ref i 2; back_ref i 3] ->
  (forall ref, ref ∈ row_refs row -> ref < i) /\ length (row_refs row) = i `min` 3.
Proof.
  intros Hrow. unfold row_refs. rewrite Hrow.
  destruct i as [|[|[|i]]].
  - rewrite !back_ref_None by lia. simpl.
    split; [intros ref Hin; inversion Hin | reflexivity].
  - rewrite (back_ref_Some 1 1), (back_ref_None 1 2), (back_ref_None 1 3) by lia.
    simpl. split; [|reflexivity]. intros ref ->%list_elem_of_singleton. lia.
  - rewrite (back_ref_Some 2 1), (back_ref_Some 2 2), (back_ref_None 2 3) by lia.
    simpl. split; [|reflexivity]. intros ref Hin. set_unfold. lia.
  - rewrite !back_ref_Some by lia. split; [|simpl; lia].
    intros ref Hin. simpl in Hin. set_unfold. lia.
Qed.

End Chain.

(** Consecutive carbons of butane are bonded. *)
Lemma butane_bonded (key : nat) : key < 3 -> bonded Examples.butane key (S key).
Proof.
  intros Hlt. destruct key as [|[|[|key]]]; [| | |lia].
  - exists {[0; 2]}. split; [vm_compute; reflexivity|].
    apply elem_of_union; left. now apply elem_of_singleton.
  - exists {[1; 3]}. split; [vm_compute; reflexivity|].
    apply elem_of_union; left. now apply elem_of_singleton.
  - exists {[2]}. split; [vm_compute; reflexivity|]. now apply elem_of_singleton.
Qed.

Lemma butane_placeable (key : nat) :
  key < 4 -> placeable Examples.to_Z Examples.hybridizations Examples.butane key.
Proof.
  intros Hlt.
  do 4 (destruct key as [|key];
        [split; [now exists "C"%string, 6%Z | exists 3%Z; split; [reflexivity | auto]]|]).
  lia.
Qed.


(** ** The ring builder *)

Lemma window_getitem (row_dct : gmap nat nat) (key : option nat) (row : option nat) :
  (forall k, key = Some k -> is_Some (row_dct !! k)) ->
  exists row',
    match key with
    | Some k => Some <$> getitem row_dct k
    | None => Ok row
    end = Ok row'.
Proof.
  intros Hin. destruct key as [k|]; [|eauto].
  destruct (Hin k eq_refl) as [r Hr]. rewrite (getitem_Some _ _ _ Hr). eauto.
Qed.

Lemma ring_step_Ok (gra : graph) (st : loop_state) (key4 : nat) :
  window_placed st -> has_symbol gra key4 ->
  exists st' row,
    ring_step gra st key4 = Ok st' /\
    window_placed st' /\
    st_zma st' = st_zma st ++ [row] /\
    val_row row = [st_r34 st; st_a234 st; st_d1234 st] /\
    st_r34 st' = st_r34 st /\ st_a234 st' = st_a234 st /\ st_d1234 st' = st_d1234 st /\
    is_Some (st_row_dct st' !! key4) /\
    (forall key, is_Some (st_row_dct st !! key) -> is_Some (st_row_dct st' !! key)).
Proof.
  intros Hwin [sym Hsym]. unfold ring_step.
  set (row_dct := <[key4 := zmat_count (st_zma st)]> (st_row_dct st)).
  assert (forall key, is_Some (st_row_dct st !! key) -> is_Some (row_dct !! key)) as Hmono.
  { intros key Hkey. unfold row_dct. rewrite lookup_insert. case_decide; eauto. }
  destruct (window_getitem row_dct (st_key3 st) (st_row3 st)) as [row3 ->];
    [intros; apply Hmono, Hwin; auto|].
  destruct (window_getitem row_dct (st_key2 st) (st_row2 st)) as [row2 ->];
    [intros; apply Hmono, Hwin; auto|].
  destruct (window_getitem row_dct (st_key1 st) (st_row1 st)) as [row1 ->];
    [intros; apply Hmono, Hwin; auto|].
  simpl. rewrite (getitem_Some _ _ _ Hsym). simpl.
  eexists _, _. split; [reflexivity|]. simpl. repeat split; try reflexivity.
  - unfold window_placed. simpl. intros key [Hk|[Hk|Hk]].
    + injection Hk as <-. unfold row_dct. rewrite lookup_insert_eq. eauto.
    + apply Hmono, Hwin. auto.
    + apply Hmono, Hwin. auto.
  - unfold row_dct. rewrite lookup_insert_eq. eauto.
  - exact Hmono.
Qed.

Lemma ring_loop_Ok (gra : graph) (ring_keys : list nat) (st : loop_state) :
  window_placed st -> Forall (has_symbol gra) ring_keys ->
  exists st' rows,
    for_each (ring_step gra) st ring_keys = Ok st' /\
    st_zma st' = st_zma st ++ rows /\
    length rows = length ring_keys /\
    Forall (fun row => val_row row = [st_r34 st; st_a234 st; st_d1234 st]) rows /\
    Forall (fun key => is_Some (st_row_dct st' !! key)) ring_keys /\
    (forall key, is_Some (st_row_dct st !! key) -> is_Some (st_row_dct st' !! key)).
Proof.
  revert st. induction ring_keys as [|key4 keys IH]; intros st Hwin Hsym.
  - exists st, []. simpl. rewrite app_nil_r. repeat split; auto.
  - apply Forall_cons in Hsym as [Hsym4 Hsym].
    destruct (ring_step_Ok gra st key4 Hwin Hsym4)
      as (st1 & row & Hstep & Hwin1 & Hzma1 & Hval & Hr & Ha & Hd & Hkey4 & Hmono1).
    destruct (IH st1 Hwin1 Hsym) as (st' & rows & Hloop & Hzma & Hlen & Hvals & Hkeys & Hmono).
    exists st', (row :: rows). simpl. rewrite Hstep. simpl.
    split; [exact Hloop|]. repeat split.
    + rewrite Hzma, Hzma1, <- app_assoc. reflexivity.
    + simpl. now rewrite Hlen.
    + constructor; [exact Hval|]. rewrite Hr, Ha, Hd in Hvals. exact Hvals.
    + constructor; [apply Hmono, Hkey4 | exact Hkeys].
    + intros key Hkey. apply Hmono, Hmono1, Hkey.
Qed.

Lemma mapM_getitem_Ok (row_dct : gmap nat nat) (keys : list nat) :
  Forall (fun key => is_Some (row_dct !! key)) keys ->
  exists rows,
    mapM (getitem row_dct) keys = Ok rows /\
    Forall2 (fun key row => row_dct !! key = Some row) keys rows.
Proof.
  induction 1 as [|key keys [row Hrow] _ (rows & Hrows & Hall)].
  - exists []. split; [reflexivity | constructor].
  - exists (row :: rows). simpl. rewrite (getitem_Some _ _ _ Hrow). simpl.
    rewrite Hrows. simpl. split; [reflexivity | now constructor].
Qed.

Lemma ring_step_Ok_inv (gra : graph) (st st' : loop_state) (key4 : nat) :
  ring_step gra st key4 = Ok st' -> has_symbol gra key4.
Proof.
  unfold ring_step. intros Hstep.
  do 3 (apply bind_Ok_inv in Hstep as (? & _ & Hstep)).
  apply bind_Ok_inv in Hstep as (sym & Hsym & _).
  apply getitem_Ok_inv in Hsym. now exists sym.
Qed.

Lemma ring_loop_Ok_inv (gra : graph) (ring_keys : list nat) (st st' : loop_state) :
  for_each (ring_step gra) st ring_keys = Ok st' -> Forall (has_symbol gra) ring_keys.
Proof.
  revert st. induction ring_keys as [|key4 keys IH]; intros st Hloop; [constructor|].
  simpl in Hloop. apply bind_Ok_inv in Hloop as (st1 & Hstep & Hloop).
  constructor; [eapply ring_step_Ok_inv, Hstep | eapply IH, Hloop].
Qed.

Section Ring.

Variable root_scalar : (R -> result R) -> R -> R -> result RootResults.

(** When the angle solver answers and every key has a symbol, the ring
    builder returns, and each row was appended with the same three values. *)
Lemma ring_zmatrix_Ok
    (gra : graph) (ring_keys : list nat) (bond_dist end_dist : option R) (bond_ang : R) :
  ring_arc_bond_angle root_scalar (Z.of_nat (length ring_keys))
    (default XY_DIST end_dist) (default XY_DIST bond_dist) = Ok bond_ang ->
  Forall (has_symbol gra) ring_keys ->
  exists zma ring_rows,
    ring_zmatrix root_scalar gra ring_keys bond_dist end_dist = Ok (zma, ring_rows) /\
    length zma = length ring_keys /\
    length ring_rows = length ring_keys /\
    Forall (fun row => val_row row
                       = [Some (default XY_DIST bond_dist); Some bond_ang; Some 0%R]) zma.
Proof.
  intros Hang Hsym. unfold ring_zmatrix. rewrite Hang. simpl.
  match goal with |- context [for_each _ ?st0 _] => set (st := st0) end.
  destruct (ring_loop_Ok gra ring_keys st)
    as (st' & rows & Hloop & Hzma & Hlen & Hvals & Hkeys & _).
  { intros key [Hk|[Hk|Hk]]; discriminate. }
  { exact Hsym. }
  rewrite Hloop. simpl.
  destruct (mapM_getitem_Ok _ _ Hkeys) as (ring_rows & Hrows & Hall).
  rewrite Hrows. simpl. simpl in Hzma. subst rows.
  exists (st_zma st'), ring_rows. repeat split.
  - exact Hlen.
  - symmetry. eapply Forall2_length, Hall.
  - exact Hvals.
Qed.

(** C6.  Every row the ring builder appends carries the bond distance, the
    one bond angle that [ring_arc_bond_angle] computed for the whole
    sequence, and the dihedral 0: the angle is the same in all rows, and
    the dihedral is 0 in every row (so in every row beyond the third). *)
Theorem ring_zmatrix_uniform_values
    (gra : graph) (ring_keys : list nat) (bond_dist end_dist : option R) (bond_ang : R) :
  ring_arc_bond_angle root_scalar (Z.of_nat (length ring_keys))
    (default XY_DIST end_dist) (default XY_DIST bond_dist) = Ok bond_ang ->
  Forall (has_symbol gra) ring_keys ->
  exists zma ring_rows,
    ring_zmatrix root_scalar gra ring_keys bond_dist end_dist = Ok (zma, ring_rows) /\
    length zma = length ring_keys /\
    forall i row,
      zma !! i = Some row ->
      val_row row = [Some (default XY_DIST bond_dist); Some bond_ang; Some 0%R] /\
      val_row row !! 1 = Some (Some bond_ang) /\
      (3 <= i -> val_row row !! 2 = Some (Some 0%R)).
Proof.
  intros Hang Hsym.
  destruct (ring_zmatrix_Ok gra ring_keys bond_dist end_dist bond_ang Hang Hsym)
    as (zma & ring_rows & Hring & Hlen & _ & Hvals).
  exists zma, ring_rows. split; [exact Hring|]. split; [exact Hlen|].
  intros i row Hrow. eapply Forall_lookup_1 in Hvals; [|exact Hrow].
  rewrite Hvals. repeat split.
Qed.

Lemma ring_zmatrix_Ok_inv
    (gra : graph) (ring_keys : list nat) (bond_dist end_dist : option R)
    (zma : zmatrix) (ring_rows : list nat) :
  ring_zmatrix root_scalar gra ring_keys bond_dist end_dist = Ok (zma, ring_rows) ->
  exists bond_ang,
    ring_arc_bond_angle root_scalar (Z.of_nat (length ring_keys))
      (default XY_DIST end_dist) (default XY_DIST bond_dist) = Ok bond_ang /\
    Forall (has_symbol gra) ring_keys.
Proof.
  unfold ring_zmatrix. intros Hring.
  apply bind_Ok_inv in Hring as (bond_ang & Hang & Hring).
  apply bind_Ok_inv in Hring as (st' & Hloop & _).
  exists bond_ang. split; [exact Hang | eapply ring_loop_Ok_inv, Hloop].
Qed.

(** C5, as amended.  When the caller gives a bond distance and no end
    distance, the end distance is the constant [XY_DIST], 1.5, whatever the
    bond distance: the call is the one with end distance 1.5, and it is the
    one with both distances equal only when the bond distance is 1.5. *)
Theorem ring_zmatrix_default_end_dist
    (gra : graph) (ring_keys : list nat) (bond_dist : R) :
  (ring_zmatrix root_scalar gra ring_keys (Some bond_dist) None
   = ring_zmatrix root_scalar gra ring_keys (Some bond_dist) (Some 1.5%R)) /\
  (bond_dist = 1.5%R ->
   ring_zmatrix root_scalar gra ring_keys (Some bond_dist) None
   = ring_zmatrix root_scalar gra ring_keys (Some bond_dist) (Some bond_dist)).
Proof.
  split.
  - unfold ring_zmatrix, XY_DIST. reflexivity.
  - intros ->. unfold ring_zmatrix, XY_DIST. reflexivity.
Qed.

Lemma ring_zmatrix_pair_end_dist (gra : graph) (key1 key2 : nat) :
  bracketed root_scalar ->
  has_symbol gra key1 -> has_symbol gra key2 ->
  ring_zmatrix root_scalar gra [key1; key2] (Some 1.1%R) None
  <> ring_zmatrix root_scalar gra [key1; key2] (Some 1.1%R) (Some 1.1%R).
Proof.
  intros Hbr Hsym1 Hsym2 Heq.
  assert (Forall (has_symbol gra) [key1; key2]) as Hsym by (repeat constructor; assumption).
  destruct (ring_zmatrix_Ok gra [key1; key2] (Some 1.1%R) None 180%R)
    as (zma1 & rows1 & Hlhs & Hlen1 & _ & Hval1); [|exact Hsym|].
  { simpl. apply ring_arc_bond_angle_guard.
    unfold XY_DIST. change (IZR (Z.of_nat 2 - 1)) with 1%R. lra. }
  rewrite Hlhs in Heq. symmetry in Heq.
  destruct (ring_zmatrix_Ok_inv _ _ _ _ _ _ Heq) as (ang & Hang & _).
  destruct (ring_zmatrix_Ok gra [key1; key2] (Some 1.1%R) (Some 1.1%R) ang)
    as (zma2 & rows2 & Hrhs & _ & _ & Hval2); [exact Hang | exact Hsym |].
  rewrite Hrhs in Heq. injection Heq as -> _.
  destruct zma1 as [|row zma1]; [discriminate|].
  apply Forall_cons in Hval1 as [H1 _]. apply Forall_cons in Hval2 as [H2 _].
  rewrite H1 in H2. injection H2 as H2.
  apply (ring_arc_bond_angle_boundary_pair root_scalar 1.1%R Hbr).
  simpl in Hang. change (Z.of_nat 2) with 2%Z in Hang.
  rewrite Hang. f_equal. symmetry. exact H2.
Qed.
End Ring.

(** The atoms of the example graphs have symbols. *)
Lemma butane_has_symbol (key : nat) : key < 4 -> has_symbol Examples.butane key.
Proof.
  intros Hlt. do 4 (destruct key as [|key]; [now exists "C"%string|]). lia.
Qed.

Lemma bicyclooctane_has_symbol (key : nat) :
  key < 8 -> has_symbol Examples.bicyclooctane key.
Proof.
  intros Hlt. do 8 (destruct key as [|key]; [now exists "C"%string|]). lia.
Qed.

Lemma dict_zip_is_Some (keys vals : list nat) (key : nat) :
  length keys = length vals -> key ∈ keys -> is_Some (dict_zip keys vals !! key).
Proof.
  unfold dict_zip.
  assert (forall (pairs : list (nat * nat)) (dct : gmap nat nat),
            key ∈ pairs.*1 \/ is_Some (dct !! key) ->
            is_Some (foldl (fun dct kv => <[kv.1 := kv.2]> dct) dct pairs !! key)) as Hfold.
  { induction pairs as [|[k v] pairs IH]; intros dct Hin; simpl.
    - destruct Hin as [Hin|Hin]; [inversion Hin | exact Hin].
    - apply IH. destruct Hin as [Hin|Hin].
      + simpl in Hin. apply elem_of_cons in Hin as [->|Hin]; [right | now left].
        rewrite lookup_insert_eq. eauto.
      + right. rewrite lookup_insert. case_decide; eauto. }
  intros Hlen Hin. apply Hfold. left. rewrite fst_zip; [exact Hin | lia].
Qed.

Lemma join_replace_one_length (zma1 zma2 : zmatrix) (rep1_key : nat)
    (key_mat : list (list nat)) (val_mat : list (list R)) :
  length (join_replace_one zma1 zma2 rep1_key key_mat val_mat)
  = length zma1 + (length zma2 - 1).
Proof.
  unfold join_replace_one. rewrite length_app, length_imap, length_drop. reflexivity.
Qed.

(** The angle the lower-end root finder leads to *)
Lemma lower_end_solver_angle (num : Z) (end_dist bond_dist : R) :
  ~ (end_dist > IZR (num - 1) * bond_dist)%R -> (num <> 1)%Z ->
  ring_arc_bond_angle Examples.lower_end_solver num end_dist bond_dist
  = Ok (180 - 0.01 * radian_to_degree / IZR (num - 1))%R.
Proof.
  intros Hguard Hnum. unfold ring_arc_bond_angle.
  destruct (Rgt_dec end_dist (IZR (num - 1) * bond_dist)); [contradiction|].
  unfold Examples.lower_end_solver. simpl.
  rewrite pydiv_Ok; [reflexivity|]. apply not_0_IZR. lia.
Qed.


(** The six-membered ring of the example graph, with the default distances *)
Lemma ring_zmatrix_uniform_values_witness :
  exists zma ring_rows,
    ring_zmatrix Examples.lower_end_solver Examples.bicyclooctane
      [0; 1; 2; 3; 4; 5] None None = Ok (zma, ring_rows) /\
    length zma = length [0; 1; 2; 3; 4; 5] /\
    forall i row,
      zma !! i = Some row ->
      val_row row = [Some (default XY_DIST None);
                     Some (180 - 0.01 * radian_to_degree / IZR (6 - 1))%R;
                     Some 0%R] /\
      val_row row !! 1 = Some (Some (180 - 0.01 * radian_to_degree / IZR (6 - 1))%R) /\
      (3 <= i -> val_row row !! 2 = Some (Some 0%R)).
Proof.
  apply (ring_zmatrix_uniform_values Examples.lower_end_solver Examples.bicyclooctane
           [0; 1; 2; 3; 4; 5] None None).
  - apply lower_end_solver_angle; [|simpl; lia].
    simpl. unfold XY_DIST. change (IZR (6 - 1)) with 5%R. lra.
  - repeat constructor; apply bicyclooctane_has_symbol; lia.
Defined.

(** With the bond distance 1.5 the two calls of C5 agree. *)
Lemma ring_zmatrix_default_end_dist_witness :
  ring_zmatrix Examples.lower_end_solver Examples.butane [0; 1; 2; 3] (Some 1.5%R) None
  = ring_zmatrix Examples.lower_end_solver Examples.butane [0; 1; 2; 3]
      (Some 1.5%R) (Some 1.5%R).
Proof.
  apply (ring_zmatrix_default_end_dist Examples.lower_end_solver Examples.butane
           [0; 1; 2; 3] 1.5%R).
  reflexivity.
Defined.

(** C5 fails for a bond distance of 1.1 on two bonded carbons: with no end
    distance given the end distance is 1.5 and the angle 180 degrees, with
    the end distance 1.1 the angle comes from the root finder and is not
    180 degrees; the two calls differ for every root finder that keeps to
    its bracket. *)
Lemma ring_zmatrix_default_end_dist_counterexample :
  (forall root_scalar, bracketed root_scalar ->
     ring_zmatrix root_scalar Examples.butane [0; 1] (Some 1.1%R) None
     <> ring_zmatrix root_scalar Examples.butane [0; 1] (Some 1.1%R) (Some 1.1%R)) /\
  ~ (forall root_scalar gra ring_keys bond_dist,
       ring_zmatrix root_scalar gra ring_keys (Some bond_dist) None
       = ring_zmatrix root_scalar gra ring_keys (Some bond_dist) (Some bond_dist)).
Proof.
  assert (forall root_scalar, bracketed root_scalar ->
     ring_zmatrix root_scalar Examples.butane [0; 1] (Some 1.1%R) None
     <> ring_zmatrix root_scalar Examples.butane [0; 1] (Some 1.1%R) (Some 1.1%R))
    as Hdiffer.
  { intros root_scalar Hbr.
    apply ring_zmatrix_pair_end_dist; [exact Hbr | | ]; apply butane_has_symbol; lia. }
  split; [exact Hdiffer|]. intros Hsame.
  apply (Hdiffer Examples.lower_end_solver lower_end_solver_bracketed), Hsame.
Qed.

(** ** The ring-system composer *)

Section RingSystem.

Variable root_scalar : (R -> result R) -> R -> R -> result RootResults.
Variable zmat_distance : zmatrix -> nat -> nat -> result R.
Variable zmat_central_angle : zmatrix -> nat -> nat -> nat -> result R.
Variable graph_string : graph -> result string.
Variable geometry : Type.
Variable zmat_geometry : zmatrix -> result geometry.
Variable zmat_string : zmatrix -> result string.
Variable geom_string : geometry -> result string.

Lemma ring_zmatrix_lengths
    (gra : graph) (ring_keys : list nat) (bond_dist end_dist : option R)
    (zma : zmatrix) (ring_rows : list nat) :
  ring_zmatrix root_scalar gra ring_keys bond_dist end_dist = Ok (zma, ring_rows) ->
  length zma = length ring_keys /\ length ring_rows = length ring_keys.
Proof.
  intros Hring.
  destruct (ring_zmatrix_Ok_inv _ _ _ _ _ _ _ Hring) as (bond_ang & Hang & Hsym).
  destruct (ring_zmatrix_Ok _ _ _ _ _ _ Hang Hsym) as (zma' & rows' & Hring' & Hlen & Hlen' & _).
  rewrite Hring in Hring'. injection Hring' as <- <-. now split.
Qed.

(** Only the first arc of the decomposition is read. *)
Lemma ring_system_zmatrix_zma_first_arc
    (gra : graph) (ring_keys arc_keys : list nat) (later : list (list nat)) :
  ring_system_zmatrix_zma root_scalar zmat_distance zmat_central_angle graph_string
    gra (ring_keys :: arc_keys :: later)
  = ring_system_zmatrix_zma root_scalar zmat_distance zmat_central_angle graph_string
      gra [ring_keys; arc_keys].
Proof. reflexivity. Qed.

(** The z-matrix built has one row for every key of the ring and one for
    every key of the arc but its first. *)
Lemma ring_system_zmatrix_zma_count
    (gra : graph) (ring_keys arc_keys : list nat) (later : list (list nat))
    (zma : zmatrix) :
  ring_system_zmatrix_zma root_scalar zmat_distance zmat_central_angle graph_string
    gra (ring_keys :: arc_keys :: later) = Ok zma ->
  length zma = length ring_keys + (length arc_keys - 1).
Proof.
  unfold ring_system_zmatrix_zma. intros Hsys.
  apply bind_Ok_inv in Hsys as (text & _ & Hsys).
  apply bind_Ok_inv in Hsys as ([zma0 ring_rows] & Hring & Hsys).
  do 5 (apply bind_Ok_inv in Hsys as (? & _ & Hsys)).
  apply bind_Ok_inv in Hsys as ([arc_zma arc_rows] & Harc & Hsys).
  do 6 (apply bind_Ok_inv in Hsys as (? & _ & Hsys)).
  injection Hsys as <-. rewrite join_replace_one_length.
  apply ring_zmatrix_lengths in Hring as [-> _].
  apply ring_zmatrix_lengths in Harc as [-> _]. reflexivity.
Qed.

(** Whatever z-matrix is built, nothing is returned once it is converted
    and printed. *)
Lemma ring_system_zmatrix_returns_nothing
    (gra : graph) (ring_system_decomp_keys : list (list nat)) (zma : zmatrix)
    (geo : geometry) (zma_text geo_text : string) :
  ring_system_zmatrix_zma root_scalar zmat_distance zmat_central_angle graph_string
    gra ring_system_decomp_keys = Ok zma ->
  zmat_geometry zma = Ok geo ->
  zmat_string zma = Ok zma_text ->
  geom_string geo = Ok geo_text ->
  ring_system_zmatrix root_scalar zmat_distance zmat_central_angle graph_string
    zmat_geometry zmat_string geom_string gra ring_system_decomp_keys = Ok tt.
Proof.
  intros Hzma Hgeo Hztext Hgtext. unfold ring_system_zmatrix.
  rewrite Hzma. simpl. rewrite Hgeo. simpl. rewrite Hztext. simpl.
  now rewrite Hgtext.
Qed.

End RingSystem.


(** C1 (a defect of the code).  For a primary ring of six keys and an arc
    of four keys that shares its two end keys with the ring (eight distinct
    keys, the case the specification names), the z-matrix [ring_system_zmatrix]
    builds has nine rows: only the first end of the arc is replaced by its
    row in the ring, the last end gets a second row.  The function returns
    nothing, and it reads no arc beyond the first. *)
Theorem ring_system_zmatrix_duplicates_endpoint :
  (exists zma,
     ring_system_zmatrix_zma Examples.lower_end_solver Examples.across_distance
       Examples.right_angle Examples.graph_text Examples.bicyclooctane
       [[0; 1; 2; 3; 4; 5]; [0; 6; 7; 3]] = Ok zma /\
     length zma = 9) /\
  size (list_to_set (C := gset nat) ([0; 1; 2; 3; 4; 5] ++ [0; 6; 7; 3])) = 8 /\
  ring_system_zmatrix Examples.lower_end_solver Examples.across_distance
    Examples.right_angle Examples.graph_text Examples.cartesian Examples.zmat_text
    Examples.geom_text Examples.bicyclooctane
    [[0; 1; 2; 3; 4; 5]; [0; 6; 7; 3]] = Ok tt /\
  (forall later,
     ring_system_zmatrix_zma Examples.lower_end_solver Examples.across_distance
       Examples.right_angle Examples.graph_text Examples.bicyclooctane
       ([0; 1; 2; 3; 4; 5] :: [0; 6; 7; 3] :: later)
     = ring_system_zmatrix_zma Examples.lower_end_solver Examples.across_distance
         Examples.right_angle Examples.graph_text Examples.bicyclooctane
         [[0; 1; 2; 3; 4; 5]; [0; 6; 7; 3]]).
Proof.
  assert (exists zma,
    ring_system_zmatrix_zma Examples.lower_end_solver Examples.across_distance
      Examples.right_angle Examples.graph_text Examples.bicyclooctane
      [[0; 1; 2; 3; 4; 5]; [0; 6; 7; 3]] = Ok zma) as [zma Hzma].
  { assert (exists ang, ring_arc_bond_angle Examples.lower_end_solver 6 XY_DIST XY_DIST
                         = Ok ang) as [ang0 Hang0].
    { eexists. apply lower_end_solver_angle; [|lia].
      unfold XY_DIST. change (IZR (6 - 1)) with 5%R. lra. }
    assert (exists ang, ring_arc_bond_angle Examples.lower_end_solver 4 3 XY_DIST
                         = Ok ang) as [ang1 Hang1].
    { eexists. apply lower_end_solver_angle; [|lia].
      unfold XY_DIST. change (IZR (4 - 1)) with 3%R. lra. }
    unfold ring_system_zmatrix_zma.
    destruct (ring_zmatrix_Ok Examples.lower_end_solver Examples.bicyclooctane
                [0; 1; 2; 3; 4; 5] None None ang0 Hang0)
      as (zma0 & ring_rows & -> & _ & Hlen & _).
    { repeat constructor; apply bicyclooctane_has_symbol; lia. }
    simpl.
    destruct (dict_zip_is_Some [0; 1; 2; 3; 4; 5] ring_rows 0) as [row0 Hrow0];
      [now rewrite Hlen | set_unfold; lia |].
    destruct (dict_zip_is_Some [0; 1; 2; 3; 4; 5] ring_rows 3) as [row3 Hrow3];
      [now rewrite Hlen | set_unfold; lia |].
    rewrite (getitem_Some _ _ _ Hrow0). simpl.
    rewrite (getitem_Some _ _ _ Hrow3). simpl.
    destruct (ring_zmatrix_Ok Examples.lower_end_solver Examples.bicyclooctane
                [0; 6; 7; 3] None (Some 3%R) ang1 Hang1)
      as (arc_zma & arc_rows & -> & _ & Hlen' & _).
    { repeat constructor; apply bicyclooctane_has_symbol; lia. }
    simpl.
    destruct arc_rows as [|a0 [|a1 [|a2 [|a3 [|]]]]]; try discriminate.
    simpl. eauto. }
  pose proof (ring_system_zmatrix_zma_count _ _ _ _ _ _ _ _ _ Hzma) as Hcount.
  split; [|split; [|split]].
  - exists zma. split; [exact Hzma | exact Hcount].
  - vm_compute. reflexivity.
  - eapply ring_system_zmatrix_returns_nothing; [exact Hzma | reflexivity..].
  - intros later. apply ring_system_zmatrix_zma_first_arc.
Qed.

(** * Further properties of the code *)

(** ** The graph getters *)

(** X1.  The getters of [_graph_base.py] read the graph back component by
    component: an atom key holds the atom [(sym, hyd, par)] exactly when
    [atom_symbols], [atom_implicit_hydrogen_valences] and
    [atom_stereo_parities] hold [sym], [hyd] and [par] for it, and a bond
    key holds the bond [(ord, par)] exactly when [bond_orders] and
    [bond_stereo_parities] hold [ord] and [par] for it.  So the five
    property dictionaries determine the graph. *)
Theorem graph_getters_read_back (gra : graph) :
  (forall key sym hyd par,
     atoms gra !! key = Some (sym, hyd, par) <->
     atom_symbols gra !! key = Some sym /\
     atom_implicit_hydrogen_valences gra !! key = Some hyd /\
     atom_stereo_parities gra !! key = Some par) /\
  (forall bnd_key ord par,
     bonds gra !! bnd_key = Some (ord, par) <->
     bond_orders gra !! bnd_key = Some ord /\
     bond_stereo_parities gra !! bnd_key = Some par).
Proof.
  unfold atom_symbols, atom_implicit_hydrogen_valences, atom_stereo_parities,
    bond_orders, bond_stereo_parities, atom_keys, bond_keys.
  split.
  - intros key sym hyd par. rewrite !by_key_by_position_lookup.
    destruct (atoms gra !! key) as [[[sym' hyd'] par']|]; simpl.
    + split; [intros [= -> -> ->]; auto | intros ([= <-] & [= <-] & [= <-]); reflexivity].
    + split; [discriminate | intros [? _]; discriminate].
  - intros bnd_key ord par. rewrite !by_key_by_position_lookup.
    destruct (bonds gra !! bnd_key) as [[ord' par']|]; simpl.
    + split; [intros [= -> ->]; auto | intros ([= <-] & [= <-]); reflexivity].
    + split; [discriminate | intros [? _]; discriminate].
Qed.

(** ** The heuristic parameter model: the bond checks *)

Lemma atom_neighbor_keys_is_Some (gra : graph) (key : nat) :
  is_Some (atoms gra !! key) -> is_Some (atom_neighbor_keys gra !! key).
Proof.
  intros [atm Hatm]. unfold atom_neighbor_keys. rewrite map_lookup_imap, Hatm.
  simpl. eauto.
Qed.

(** A key outside the neighbours of another is not bonded to it. *)
Lemma not_bonded (gra : graph) (key1 key2 : nat) (ngb_keys : gset nat) :
  atom_neighbor_keys gra !! key2 = Some ngb_keys -> key1 ∉ ngb_keys ->
  ~ bonded gra key1 key2.
Proof. intros Hngb Hnot (ngb & Hngb' & Hin). congruence. Qed.

(** The bond check of [heuristic_bond_distance] fails on the assertion for
    a pair that is not bonded. *)
Lemma check_unbonded (gra : graph) (key1 key2 : nat) :
  is_Some (atoms gra !! key2) -> ~ bonded gra key1 key2 ->
  (ngb_keys ← getitem (atom_neighbor_keys gra) key2;
   assert (bool_decide (key1 ∈ ngb_keys))) = Raise AssertionError.
Proof.
  intros Hatm Hnot. destruct (atom_neighbor_keys_is_Some gra key2 Hatm) as [ngb Hngb].
  rewrite (getitem_Some _ _ _ Hngb). simpl.
  rewrite bool_decide_eq_false_2; [reflexivity|].
  intros Hin. apply Hnot. now exists ngb.
Qed.

Section HeuristicsMore.

Variable to_Z : string -> result Z.
Variable hybridizations : graph -> gmap nat Z.

(** X2.  [heuristic_bond_distance] does not depend on the order of its two
    keys: for two atoms of the graph whose symbols are elements, swapping
    the keys gives the same distance, or the same failure of the bond
    check. *)
Theorem heuristic_bond_distance_sym
    (gra : graph) (key1 key2 : nat) (check : bool) (sym1 sym2 : string) (z1 z2 : Z) :
  atom_symbols gra !! key1 = Some sym1 ->
  atom_symbols gra !! key2 = Some sym2 ->
  to_Z sym1 = Ok z1 ->
  to_Z sym2 = Ok z2 ->
  heuristic_bond_distance to_Z gra key1 key2 check
  = heuristic_bond_distance to_Z gra key2 key1 check.
Proof.
  intros Hsym1 Hsym2 Hz1 Hz2.
  assert (is_Some (atoms gra !! key1)) as Hatm1 by (apply has_symbol_atom; now exists sym1).
  assert (is_Some (atoms gra !! key2)) as Hatm2 by (apply has_symbol_atom; now exists sym2).
  unfold heuristic_bond_distance.
  assert ((if check then
             ngb_keys ← getitem (atom_neighbor_keys gra) key2;
             assert (bool_decide (key1 ∈ ngb_keys))
           else Ok tt)
          = (if check then
               ngb_keys ← getitem (atom_neighbor_keys gra) key1;
               assert (bool_decide (key2 ∈ ngb_keys))
             else Ok tt)) as ->.
  { destruct check; [|reflexivity].
    destruct (atom_neighbor_keys_is_Some gra key1 Hatm1) as [ngb1 Hngb1].
    destruct (atom_neighbor_keys_is_Some gra key2 Hatm2) as [ngb2 Hngb2].
    rewrite (getitem_Some _ _ _ Hngb1), (getitem_Some _ _ _ Hngb2). simpl.
    f_equal. apply bool_decide_ext. split; intros Hin.
    - destruct (bonded_sym gra key1 key2) as (ngb & Hngb & Hin');
        [now exists ngb2 | exact Hatm1 |].
      congruence.
    - destruct (bonded_sym gra key2 key1) as (ngb & Hngb & Hin');
        [now exists ngb1 | exact Hatm2 |].
      congruence. }
  destruct (if check then _ else _) as [[]|err]; [|reflexivity]. simpl.
  rewrite (getitem_Some _ _ _ Hsym1), (getitem_Some _ _ _ Hsym2). simpl.
  rewrite Hz1, Hz2. simpl.
  destruct (z1 =? 1)%Z, (z2 =? 1)%Z; reflexivity.
Qed.

(** X3.  For two atoms of the graph that are not bonded,
    [heuristic_bond_distance] fails on its assertion when the check is on
    (the default), and with [check=False] it returns the distance regardless
    of the bond: 1.1 when one atomic number is 1, 1.5 otherwise. *)
Theorem heuristic_bond_distance_unbonded
    (gra : graph) (key1 key2 : nat) (sym1 sym2 : string) (z1 z2 : Z) :
  atom_symbols gra !! key1 = Some sym1 ->
  atom_symbols gra !! key2 = Some sym2 ->
  to_Z sym1 = Ok z1 ->
  to_Z sym2 = Ok z2 ->
  ~ bonded gra key1 key2 ->
  heuristic_bond_distance to_Z gra key1 key2 true = Raise AssertionError /\
  heuristic_bond_distance to_Z gra key1 key2 false
  = Ok (if decide (z1 = 1%Z \/ z2 = 1%Z) then 1.1%R else 1.5%R).
Proof.
  intros Hsym1 Hsym2 Hz1 Hz2 Hnot.
  assert (is_Some (atoms gra !! key2)) as Hatm2 by (apply has_symbol_atom; now exists sym2).
  unfold heuristic_bond_distance. split.
  - rewrite (check_unbonded gra key1 key2 Hatm2 Hnot). reflexivity.
  - simpl. rewrite (getitem_Some _ _ _ Hsym1), (getitem_Some _ _ _ Hsym2). simpl.
    rewrite Hz1. simpl. destruct (Z.eqb_spec z1 1) as [->|Hne1].
    + rewrite decide_True by (now left). reflexivity.
    + rewrite Hz2. simpl. destruct (Z.eqb_spec z2 1) as [->|Hne2].
      * rewrite decide_True by (now right). reflexivity.
      * rewrite decide_False by (intros [?|?]; contradiction). reflexivity.
Qed.

(** X4.  [heuristic_bond_angle] does not depend on the order of the two
    outer keys: swapping [key1] and [key3] gives the same angle or the same
    exception. *)
Theorem heuristic_bond_angle_sym (gra : graph) (key1 key2 key3 : nat) (check : bool) :
  heuristic_bond_angle hybridizations gra key1 key2 key3 check
  = heuristic_bond_angle hybridizations gra key3 key2 key1 check.
Proof.
  unfold heuristic_bond_angle.
  replace ({[key3; key1]} : gset nat) with ({[key1; key3]} : gset nat); [reflexivity|].
  apply union_comm_L.
Qed.

(** X5.  When one of the two outer atoms is not bonded to the centre (an
    atom of the graph with hybridization 1, 2 or 3),
    [heuristic_bond_angle] fails on its first assertion with the check on,
    and with [check=False] it returns the angle of the centre's
    hybridization all the same. *)
Theorem heuristic_bond_angle_unbonded
    (gra : graph) (key1 key2 key3 : nat) (hyb2 : Z) :
  is_Some (atoms gra !! key2) ->
  hybridizations gra !! key2 = Some hyb2 ->
  (hyb2 = 1 \/ hyb2 = 2 \/ hyb2 = 3)%Z ->
  ~ bonded gra key1 key2 \/ ~ bonded gra key3 key2 ->
  heuristic_bond_angle hybridizations gra key1 key2 key3 true = Raise AssertionError /\
  heuristic_bond_angle hybridizations gra key1 key2 key3 false
  = Ok (if decide (hyb2 = 3%Z) then 109.4712%R
        else if decide (hyb2 = 2%Z) then 120%R else 180%R).
Proof.
  intros Hatm Hhyb Hcases Hnot. unfold heuristic_bond_angle. split.
  - destruct (atom_neighbor_keys_is_Some gra key2 Hatm) as [ngb Hngb].
    rewrite (getitem_Some _ _ _ Hngb). simpl.
    rewrite bool_decide_eq_false_2; [reflexivity|].
    intros Hsub. destruct Hnot as [Hnot|Hnot]; apply Hnot; exists ngb;
      (split; [exact Hngb|]); apply Hsub, elem_of_union; [left | right];
      now apply elem_of_singleton.
  - simpl. rewrite (getitem_Some _ _ _ Hhyb). simpl.
    destruct Hcases as [-> | [-> | ->]]; reflexivity.
Qed.

End HeuristicsMore.

(** Carbon and hydrogen of the C-H fragment, in either order *)
Lemma heuristic_bond_distance_sym_witness :
  heuristic_bond_distance Examples.to_Z Examples.ch 0 1 true
  = heuristic_bond_distance Examples.to_Z Examples.ch 1 0 true.
Proof.
  apply (heuristic_bond_distance_sym Examples.to_Z Examples.ch 0 1 true "C" "H" 6 1);
    reflexivity.
Defined.

(** The first and the third carbon of butane are not bonded. *)
Lemma heuristic_bond_distance_unbonded_witness :
  heuristic_bond_distance Examples.to_Z Examples.butane 0 2 true = Raise AssertionError /\
  heuristic_bond_distance Examples.to_Z Examples.butane 0 2 false
  = Ok (if decide (6 = 1 \/ 6 = 1)%Z then 1.1%R else 1.5%R).
Proof.
  apply (heuristic_bond_distance_unbonded Examples.to_Z Examples.butane 0 2 "C" "C" 6 6);
    try reflexivity.
  apply (not_bonded _ _ _ {[1; 3]}); [vm_compute; reflexivity | set_unfold; lia].
Defined.

(** The last carbon of butane is not bonded to the second one. *)
Lemma heuristic_bond_angle_unbonded_witness :
  heuristic_bond_angle Examples.hybridizations Examples.butane 0 1 3 true
  = Raise AssertionError /\
  heuristic_bond_angle Examples.hybridizations Examples.butane 0 1 3 false
  = Ok (if decide (3 = 3)%Z then 109.4712%R
        else if decide (3 = 2)%Z then 120%R else 180%R).
Proof.
  apply (heuristic_bond_angle_unbonded Examples.hybridizations Examples.butane 0 1 3 3).
  - apply has_symbol_atom. now exists "C"%string.
  - reflexivity.
  - right. now right.
  - right. apply (not_bonded _ _ _ {[0; 2]}); [vm_compute; reflexivity | set_unfold; lia].
Defined.

(** ** The residual of the ring-closure equation *)

Local Open Scope R_scope.

(** The float [numpy.pi] is within [1e-15] of the real number. *)
Lemma PI_lt_numpy_pi_ulp : PI < numpy_pi + / 1000000000000000.
Proof.
  pose proof (PI_2_3_7_ineq 8) as [_ Hup].
  unfold numpy_pi.
  cbv [sum_f_R0 tg_alt PI_2_3_7_tg Ratan_seq Nat.mul Nat.add] in Hup.
  rewrite ?INR_IZR_INZ in Hup.
  cbv [Z.of_nat Pos.of_succ_nat Pos.succ] in Hup.
  lra.
Qed.

(** Away from zero the residual is not clamped, and it is defined unless
    [num = 1] or [end_dist = 0]. *)
Lemma _f_unclamped (num : Z) (end_dist bond_dist theta : R) :
  (num <> 1)%Z -> end_dist <> 0 -> 0.001 <= theta ->
  _f num end_dist bond_dist theta = Ok (arc_residual num end_dist bond_dist theta).
Proof.
  intros Hnum Hend Hth. unfold _f, arc_residual.
  destruct (Rlt_dec (Rabs theta) 0.001) as [Habs|_].
  { rewrite Rabs_pos_eq in Habs by lra. lra. }
  rewrite (pydiv_Ok _ (IZR (2 * (num - 1)))) by (apply not_0_IZR; lia). simpl.
  rewrite pydiv_Ok by assumption. reflexivity.
Qed.

(** X6.  The residual [_f] that [ring_arc_bond_angle] hands to the root
    finder returns a number for every angle when [num] is not 1 and
    [end_dist] is not 0, raises [ZeroDivisionError] for every angle when
    [num = 1] or [end_dist = 0], and is flat near zero: an angle of absolute
    value below 0.001 is replaced by 0.001. *)
Theorem arc_residual_raises (num : Z) (end_dist bond_dist theta : R) :
  ((num <> 1)%Z -> end_dist <> 0 ->
   exists residual, _f num end_dist bond_dist theta = Ok residual) /\
  ((num = 1)%Z \/ end_dist = 0 ->
   _f num end_dist bond_dist theta = Raise ZeroDivisionError) /\
  (Rabs theta < 0.001 ->
   _f num end_dist bond_dist theta = _f num end_dist bond_dist 0.001).
Proof.
  split; [|split].
  - intros Hnum Hend. unfold _f.
    rewrite (pydiv_Ok _ (IZR (2 * (num - 1)))) by (apply not_0_IZR; lia). simpl.
    rewrite pydiv_Ok by assumption. eauto.
  - intros Hzero. unfold _f, pydiv.
    destruct (Req_dec_T (IZR (2 * (num - 1))) 0) as [_|Hne]; [reflexivity|]. simpl.
    destruct (Req_dec_T end_dist 0) as [_|Hne']; [reflexivity|].
    destruct Hzero as [->|?]; [|contradiction]. exfalso. apply Hne. reflexivity.
  - intros Habs. unfold _f.
    destruct (Rlt_dec (Rabs theta) 0.001) as [_|?]; [|contradiction].
    destruct (Rlt_dec (Rabs 0.001) 0.001) as [Habs'|_]; [|reflexivity].
    rewrite Rabs_pos_eq in Habs' by lra. lra.
Qed.

(** X7.  For two atoms the residual is the constant
    [1 - bond_dist / end_dist] on the whole bracket [[0.01, 2 * numpy.pi]]:
    the angle drops out, and the equation has no root in the bracket unless
    the end distance equals the bond distance. *)
Theorem arc_residual_two_atoms (end_dist bond_dist theta : R) :
  end_dist <> 0 -> 0.01 <= theta <= 2 * numpy_pi ->
  _f 2 end_dist bond_dist theta = Ok (1 - bond_dist / end_dist) /\
  (bond_dist <> end_dist -> _f 2 end_dist bond_dist theta <> Ok 0).
Proof.
  intros Hend Hth. pose proof numpy_pi_lt_PI as Hpi.
  assert (_f 2 end_dist bond_dist theta = Ok (1 - bond_dist / end_dist)) as Heq.
  { rewrite _f_unclamped by (lia || lra || assumption). unfold arc_residual.
    change (IZR (2 * (2 - 1))) with 2. f_equal.
    assert (sin (theta / 2) <> 0) by (apply Rgt_not_eq, sin_gt_0; lra).
    field. split; assumption. }
  split; [exact Heq|]. intros Hne. rewrite Heq. intros [= Hzero].
  apply Hne. apply Rmult_eq_reg_r with (/ end_dist); [|now apply Rinv_neq_0_compat].
  rewrite Rinv_r by assumption. unfold Rdiv in Hzero. lra.
Qed.

Lemma arc_residual_two_atoms_witness :
  _f 2 3 1.5 1 = Ok (1 - 1.5 / 3) /\ (1.5 <> 3 -> _f 2 3 1.5 1 <> Ok 0).
Proof.
  apply (arc_residual_two_atoms 3 1.5 1); pose proof numpy_pi_gt_3; lra.
Defined.

(** ** The ring-closure angle: range and failures *)

Section SolverMore.

Variable root_scalar : (R -> result R) -> R -> R -> result RootResults.

(** [ring_arc_bond_angle] returns an angle either by the guard or from a
    converged root. *)
Lemma ring_arc_bond_angle_Ok_inv (num : Z) (end_dist bond_dist ang : R) :
  ring_arc_bond_angle root_scalar num end_dist bond_dist = Ok ang ->
  (end_dist > IZR (num - 1) * bond_dist /\ ang = 180) \/
  (~ end_dist > IZR (num - 1) * bond_dist /\ (num <> 1)%Z /\
   exists res,
     root_scalar (_f num end_dist bond_dist) 0.01 (2 * numpy_pi) = Ok res /\
     converged res = true /\
     ang = 180 - root res * radian_to_degree / IZR (num - 1)).
Proof.
  unfold ring_arc_bond_angle.
  destruct (Rgt_dec end_dist (IZR (num - 1) * bond_dist)) as [Hgt|Hle].
  - intros [= <-]. now left.
  - intros Hang. right. split; [exact Hle|].
    apply bind_Ok_inv in Hang as (res & Hres & Hang).
    apply bind_Ok_inv in Hang as ([] & Hconv & Hang).
    apply bind_Ok_inv in Hang as (alpha & Halpha & Hang).
    injection Hang as <-.
    unfold pydiv in Halpha.
    destruct (Req_dec_T (IZR (num - 1)) 0) as [|Hne]; [discriminate|].
    injection Halpha as <-. split.
    + intros ->. apply Hne. reflexivity.
    + exists res. repeat split; [exact Hres|].
      destruct (converged res); [reflexivity | discriminate].
Qed.

(** X8.  With a root finder that keeps to its bracket and at least two
    atoms, every angle [ring_arc_bond_angle] returns is at most 180 degrees
    and, up to a margin of 1e-9 degrees, at least [180 - 360 / (num - 1)]
    degrees.  The numbers are real numbers here; the margin is there for
    the rounding of the conversion, the division and the subtraction of
    the code, under which the bound without a margin fails by an ulp. *)
Theorem ring_arc_bond_angle_range (num : Z) (end_dist bond_dist ang : R) :
  bracketed root_scalar -> (2 <= num)%Z ->
  ring_arc_bond_angle root_scalar num end_dist bond_dist = Ok ang ->
  180 - 360 / IZR (num - 1) - 0.000000001 <= ang <= 180.
Proof.
  intros Hbr Hnum Hang.
  enough (180 - 360 / IZR (num - 1) < ang <= 180) by lra.
  pose proof numpy_pi_lt_PI as Hpi. pose proof numpy_pi_gt_3 as Hpi3.
  assert (1 <= IZR (num - 1)) as Hm by (apply IZR_le; lia).
  assert (0 < / IZR (num - 1)) as Hinv by (apply Rinv_0_lt_compat; lra).
  apply ring_arc_bond_angle_Ok_inv in Hang
    as [[_ ->] | (_ & _ & res & Hres & Hconv & ->)].
  - split; [|lra]. unfold Rdiv. nra.
  - assert (0.01 <= 2 * numpy_pi) as Hab by lra.
    destruct (Hbr _ _ _ _ Hab Hres Hconv) as [Hlo Hhi].
    unfold radian_to_degree.
    assert (0 < / PI) as HiPI by (apply Rinv_0_lt_compat; lra).
    assert (root res * (180 / PI) < 360) as Hlt.
    { replace 360 with (2 * PI * (180 / PI)) by (field; lra).
      apply Rmult_lt_compat_r; [unfold Rdiv; nra | lra]. }
    assert (0 < root res * (180 / PI)) as Hgt.
    { apply Rmult_lt_0_compat; [lra | unfold Rdiv; nra]. }
    unfold Rdiv in *. split; nra.
Qed.

(** X9.  Where the guard does not hold, an exception of the root finder
    (for one, what the residual raised) leaves [ring_arc_bond_angle]
    unchanged, and a result that did not converge makes it fail on its
    assertion: no angle is returned from a root that was not found. *)
Theorem ring_arc_bond_angle_not_converged (num : Z) (end_dist bond_dist : R) :
  ~ end_dist > IZR (num - 1) * bond_dist ->
  (forall err,
     root_scalar (_f num end_dist bond_dist) 0.01 (2 * numpy_pi) = Raise err ->
     ring_arc_bond_angle root_scalar num end_dist bond_dist = Raise err) /\
  (forall res,
     root_scalar (_f num end_dist bond_dist) 0.01 (2 * numpy_pi) = Ok res ->
     converged res = false ->
     ring_arc_bond_angle root_scalar num end_dist bond_dist = Raise AssertionError).
Proof.
  intros Hle. unfold ring_arc_bond_angle.
  destruct (Rgt_dec end_dist (IZR (num - 1) * bond_dist)) as [?|_]; [contradiction|].
  split.
  - intros err ->. reflexivity.
  - intros res -> Hconv. simpl. rewrite Hconv. reflexivity.
Qed.

(** X10.  For a single atom [ring_arc_bond_angle] returns exactly when the
    end distance is positive: with an end distance of zero or below the
    guard fails, and whatever the root finder answers the call raises (at
    the latest on the division by [num - 1 = 0]). *)
Theorem ring_arc_bond_angle_single_atom_returns (end_dist bond_dist : R) :
  (exists ang, ring_arc_bond_angle root_scalar 1 end_dist bond_dist = Ok ang)
  <-> 0 < end_dist.
Proof.
  split.
  - intros [ang Hang].
    apply ring_arc_bond_angle_Ok_inv in Hang as [[Hgt _] | (_ & Hnum & _)].
    + change (IZR (1 - 1)) with 0 in Hgt. lra.
    + contradiction.
  - intros Hpos. exists 180. apply ring_arc_bond_angle_guard.
    change (IZR (1 - 1)) with 0. lra.
Qed.

End SolverMore.

(** Four atoms across a distance of 3, with the root finder that stops at
    the lower end of the bracket *)
Lemma ring_arc_bond_angle_range_witness :
  180 - 360 / IZR (4 - 1) - 0.000000001
  <= 180 - 0.01 * radian_to_degree / IZR (4 - 1) <= 180.
Proof.
  apply (ring_arc_bond_angle_range Examples.lower_end_solver 4 3 1.5).
  - exact lower_end_solver_bracketed.
  - lia.
  - apply lower_end_solver_angle; [|lia]. change (IZR (4 - 1)) with 3. lra.
Defined.

(** A triangle of side 1.5 with the root finder that gives up *)
Lemma ring_arc_bond_angle_not_converged_witness :
  (forall err,
     MoreExamples.stalled_solver (_f 3 1.5 1.5) 0.01 (2 * numpy_pi) = Raise err ->
     ring_arc_bond_angle MoreExamples.stalled_solver 3 1.5 1.5 = Raise err) /\
  (forall res,
     MoreExamples.stalled_solver (_f 3 1.5 1.5) 0.01 (2 * numpy_pi) = Ok res ->
     converged res = false ->
     ring_arc_bond_angle MoreExamples.stalled_solver 3 1.5 1.5 = Raise AssertionError).
Proof.
  apply (ring_arc_bond_angle_not_converged MoreExamples.stalled_solver 3 1.5 1.5).
  change (IZR (3 - 1)) with 2. lra.
Defined.

(** ** The ring-closure angle of a closed ring *)

Lemma sin_eq_on_quadrants (x y : R) :
  - (PI / 2) <= x <= PI / 2 -> - (PI / 2) <= y <= PI / 2 -> sin x = sin y -> x = y.
Proof.
  intros Hx Hy Heq.
  destruct (Rtotal_order x y) as [Hlt|[Heq'|Hgt]]; [exfalso | assumption | exfalso].
  - pose proof (sin_increasing_1 x y). lra.
  - pose proof (sin_increasing_1 y x). lra.
Qed.

Lemma sin_eq_first_quadrant (x y : R) :
  0 <= x <= PI / 2 -> 0 <= y <= PI -> sin x = sin y -> y = x \/ y = PI - x.
Proof.
  intros Hx Hy Heq. pose proof PI_RGT_0 as HPI.
  destruct (Rle_dec y (PI / 2)) as [Hle|Hgt].
  - left. symmetry. apply sin_eq_on_quadrants; lra.
  - right. rewrite <- (sin_PI_x y) in Heq.
    apply sin_eq_on_quadrants in Heq; lra.
Qed.

Lemma ratio_lt_1 (n d : R) : 0 < d -> n < d -> n / d - 1 < 0.
Proof.
  intros Hd Hlt. assert (0 < / d) as Hinv by now apply Rinv_0_lt_compat.
  assert (d * / d = 1) as Hone by (field; lra). unfold Rdiv. nra.
Qed.

Lemma ratio_gt_1 (n d : R) : 0 < d -> d < n -> 0 < n / d - 1.
Proof.
  intros Hd Hlt. assert (0 < / d) as Hinv by now apply Rinv_0_lt_compat.
  assert (d * / d = 1) as Hone by (field; lra). unfold Rdiv. nra.
Qed.

Section Polygon.

Variable root_scalar : (R -> result R) -> R -> R -> result RootResults.
Variable num : Z.
Variable bond_dist : R.
Hypothesis Hnum : (3 <= num <= 1000000000000000)%Z.
Hypothesis Hbond : 0 < bond_dist.

Local Abbreviation m := (IZR (num - 1)).

Lemma polygon_m_bounds : 2 <= m <= 1000000000000000.
Proof. split; apply IZR_le; lia. Qed.

Lemma polygon_residual_eq (theta : R) :
  arc_residual num bond_dist bond_dist theta
  = sin (theta / (2 * m)) / sin (theta / 2) - 1.
Proof.
  unfold arc_residual. rewrite mult_IZR.
  assert (bond_dist / bond_dist = 1) as ->.
  { unfold Rdiv. apply Rinv_r. lra. }
  reflexivity.
Qed.

Lemma polygon_residual_continuous (theta : R) :
  0.01 <= theta <= 2 * numpy_pi ->
  continuity_pt (arc_residual num bond_dist bond_dist) theta.
Proof.
  intros Hth. pose proof numpy_pi_lt_PI as Hpi.
  assert (sin (theta / 2) <> 0) as Hsin.
  { apply Rgt_not_eq, sin_gt_0; lra. }
  unfold arc_residual. reg.
Qed.

(** The residual changes sign over the bracket: the upper end
    [2 * numpy.pi] lies below [2 * PI] by more than the first zero does as
    long as [num] stays below [1e15]. *)
Lemma polygon_residual_signs :
  arc_residual num bond_dist bond_dist 0.01
  * arc_residual num bond_dist bond_dist (2 * numpy_pi) < 0.
Proof.
  pose proof numpy_pi_lt_PI as Hpi. pose proof numpy_pi_gt_3 as Hpi3.
  pose proof PI_lt_numpy_pi_ulp as Hulp. pose proof polygon_m_bounds as [Hm2 Hmax].
  assert (0 < / m <= / 2) as [Hu0 Hu2].
  { split; [apply Rinv_0_lt_compat; lra | apply Rinv_le_contravar; lra]. }
  assert (/ 1000000000000000 <= / m) as Hu by (apply Rinv_le_contravar; lra).
  rewrite !polygon_residual_eq.
  assert (sin (0.01 / (2 * m)) / sin (0.01 / 2) - 1 < 0) as Hlo.
  { apply ratio_lt_1; [apply sin_gt_0; lra|].
    replace (0.01 / (2 * m)) with (0.005 * / m)
      by (unfold Rdiv; rewrite Rinv_mult; lra).
    apply sin_increasing_1; nra. }
  assert (0 < sin (2 * numpy_pi / (2 * m)) / sin (2 * numpy_pi / 2) - 1) as Hhi.
  { replace (2 * numpy_pi / 2) with numpy_pi by field.
    replace (2 * numpy_pi / (2 * m)) with (numpy_pi * / m) by (field; lra).
    apply ratio_gt_1; [apply sin_gt_0; lra|].
    rewrite <- (sin_PI_x numpy_pi). apply sin_increasing_1; nra. }
  nra.
Qed.

(** The only zero of the residual in the bracket *)
Lemma polygon_residual_root (z : R) :
  0.01 <= z <= 2 * numpy_pi ->
  arc_residual num bond_dist bond_dist z = 0 ->
  z = 2 * PI * m / (m + 1).
Proof.
  intros Hz Hroot. pose proof numpy_pi_lt_PI as Hpi.
  pose proof polygon_m_bounds as [Hm2 _].
  assert (0 < / m <= / 2) as [Hu0 Hu2].
  { split; [apply Rinv_0_lt_compat; lra | apply Rinv_le_contravar; lra]. }
  rewrite polygon_residual_eq in Hroot.
  assert (0 < sin (z / 2)) as Hsin by (apply sin_gt_0; lra).
  assert (sin (z / (2 * m)) = sin (z / 2)) as Heq.
  { apply Rmult_eq_reg_r with (/ sin (z / 2)); [|apply Rinv_neq_0_compat; lra].
    rewrite Rinv_r by lra. unfold Rdiv in Hroot at 1. lra. }
  assert (z / (2 * m) = z / 2 * / m) as Hx by (field; lra).
  apply sin_eq_first_quadrant in Heq as [Heq|Heq]; [| |nra|lra].
  - exfalso. rewrite Hx in Heq. nra.
  - rewrite Hx in Heq.
    assert (z * (m + 1) = 2 * PI * m) as Hz'.
    { assert (m * / m = 1) as Hone by (field; lra). nra. }
    apply Rmult_eq_reg_r with (m + 1); [|lra].
    rewrite Hz'. field. lra.
Qed.

(** X11.  For a closed ring, where the end distance equals the bond
    distance, of [3 <= num <= 1e15] atoms, [ring_arc_bond_angle] called with
    a Brent root finder of tolerance at most [1e-6] returns the interior
    angle of the regular polygon, [180 - 360 / num] degrees, within [1e-4]
    degrees: 90 for four atoms, 108 for five, 120 for six. *)
Theorem ring_arc_bond_angle_regular_polygon (xtol : R) :
  brentq_spec root_scalar xtol -> xtol <= 0.000001 ->
  exists ang,
    ring_arc_bond_angle root_scalar num bond_dist bond_dist = Ok ang /\
    Rabs (ang - (180 - 360 / IZR num)) <= 0.0001.
Proof.
  intros Hspec Hxtol. pose proof numpy_pi_gt_3 as Hpi3. pose proof PI_gt_3 as HPI.
  pose proof polygon_m_bounds as [Hm2 _].
  destruct (Hspec (_f num bond_dist bond_dist) (arc_residual num bond_dist bond_dist)
              0.01 (2 * numpy_pi))
    as (res & z & Hres & Hconv & _ & Hz & Hroot & Hnear).
  { lra. }
  { intros x Hx. apply _f_unclamped; [lia | lra | lra]. }
  { apply polygon_residual_continuous. }
  { apply polygon_residual_signs. }
  apply polygon_residual_root in Hroot; [|assumption].
  unfold ring_arc_bond_angle.
  destruct (Rgt_dec bond_dist (m * bond_dist)) as [Hgt|_]; [nra|].
  rewrite Hres. simpl. rewrite Hconv. simpl.
  rewrite pydiv_Ok by lra. simpl.
  eexists. split; [reflexivity|].
  replace (IZR num) with (m + 1) by (rewrite minus_IZR; ring).
  unfold radian_to_degree.
  replace (180 - root res * (180 / PI) / m - (180 - 360 / (m + 1)))
    with (- (180 / (PI * m)) * (root res - z)) by (rewrite Hroot; field; lra).
  assert (0 < 180 / (PI * m) <= 30) as [HK0 HK].
  { assert (0 < PI * m) as Hpos by nra.
    split; [apply Rdiv_lt_0_compat; lra|].
    apply Rmult_le_reg_r with (PI * m); [assumption|].
    unfold Rdiv. rewrite Rmult_assoc, Rinv_l by lra. nra. }
  rewrite Rabs_mult, Rabs_Ropp, (Rabs_pos_eq (180 / (PI * m))) by lra.
  pose proof (Rabs_pos (root res - z)). nra.
Qed.

End Polygon.

(** The six-membered ring: 120 degrees *)
Lemma ring_arc_bond_angle_regular_polygon_witness :
  exists ang,
    ring_arc_bond_angle Examples.exact_solver 6 1.5 1.5 = Ok ang /\
    Rabs (ang - (180 - 360 / IZR 6)) <= 0.0001.
Proof.
  apply (ring_arc_bond_angle_regular_polygon Examples.exact_solver 6 1.5
           ltac:(lia) ltac:(lra) 0).
  - apply exact_solver_spec. lra.
  - lra.
Defined.

Local Close Scope R_scope.

(** ** The chain builder: what a returned z-matrix tells *)

Lemma for_each_cons_Ok {S A : Type} (step : S -> A -> result S)
    (st st1 : S) (x : A) (xs : list A) :
  step st x = Ok st1 -> for_each step st (x :: xs) = for_each step st1 xs.
Proof. intros Hstep. simpl. now rewrite Hstep. Qed.

Lemma mapM_Ok_length {A B} (g : A -> result B) (xs : list A) (ys : list B) :
  mapM g xs = Ok ys -> length ys = length xs.
Proof.
  revert ys. induction xs as [|x xs IH]; intros ys Hmap.
  - injection Hmap as <-. reflexivity.
  - simpl in Hmap. apply bind_Ok_inv in Hmap as (y & _ & Hmap).
    apply bind_Ok_inv in Hmap as (ys' & Hys' & Hmap). injection Hmap as <-.
    simpl. f_equal. now apply IH.
Qed.

Lemma links_is_path (gra : graph) (keys : list nat) (prev : option nat) :
  links gra prev keys -> is_path gra keys.
Proof.
  revert prev. induction keys as [|key4 keys IH]; intros prev Hlinks i key key' Hi Hi'.
  - inversion Hi.
  - destruct Hlinks as [_ Hlinks]. destruct i as [|i].
    + injection Hi as <-. destruct keys as [|key5 keys]; [inversion Hi'|].
      injection Hi' as <-. destruct Hlinks as [Hbond _]. now apply Hbond.
    + apply (IH _ Hlinks i key key'); assumption.
Qed.

Lemma window_inv_init (st : loop_state) :
  st_zma st = [] -> st_key3 st = None -> st_key2 st = None -> st_key1 st = None ->
  st_r34 st = None -> st_a234 st = None -> st_d1234 st = None ->
  window_inv st.
Proof.
  intros Hzma H3 H2 H1 Hr Ha Hd. constructor; rewrite ?Hzma; simpl; auto; split; auto; lia.
Qed.

Section ChainMore.

Variable to_Z : string -> result Z.
Variable hybridizations : graph -> gmap nat Z.

(** A checked distance is one of the two constants, of a bonded pair. *)
Lemma heuristic_bond_distance_Ok_inv (gra : graph) (key1 key2 : nat) (dist : R) :
  heuristic_bond_distance to_Z gra key1 key2 true = Ok dist ->
  bonded gra key1 key2 /\ (dist = XH_DIST \/ dist = XY_DIST).
Proof.
  unfold heuristic_bond_distance. intros Hdist.
  apply bind_Ok_inv in Hdist as ([] & Hcheck & Hdist).
  apply bind_Ok_inv in Hcheck as (ngb & Hngb & Hin).
  apply getitem_Ok_inv in Hngb. split.
  - exists ngb. split; [exact Hngb|].
    destruct (decide (key1 ∈ ngb)) as [Hin'|Hnot]; [exact Hin'|].
    rewrite bool_decide_eq_false_2 in Hin by exact Hnot. discriminate.
  - do 3 (apply bind_Ok_inv in Hdist as (? & _ & Hdist)).
    destruct (_ =? 1)%Z; [injection Hdist as <-; now left|].
    apply bind_Ok_inv in Hdist as (? & _ & Hdist).
    destruct (_ =? 1)%Z; injection Hdist as <-; [now left | now right].
Qed.

(** An angle is one of the three constants. *)
Lemma heuristic_bond_angle_Ok_inv (gra : graph) (key1 key2 key3 : nat) (ang : R) :
  heuristic_bond_angle hybridizations gra key1 key2 key3 true = Ok ang ->
  ang = TET_ANG \/ ang = TRI_ANG \/ ang = LIN_ANG.
Proof.
  unfold heuristic_bond_angle. intros Hang.
  do 2 (apply bind_Ok_inv in Hang as (? & _ & Hang)).
  destruct (_ =? 3)%Z; [injection Hang as <-; now left|].
  destruct (_ =? 2)%Z; [injection Hang as <-; right; now left|].
  apply bind_Ok_inv in Hang as (? & _ & Hang). injection Hang as <-. right; now right.
Qed.

(** A turn of the loop that succeeds placed a key bonded to the one before
    it, and appended one row with the symbol of the key and the values of
    its place in the chain. *)
Lemma chain_step_Ok_inv (gra : graph) (st st' : loop_state) (key4 : nat) :
  window_inv st ->
  chain_step to_Z hybridizations gra st key4 = Ok st' ->
  window_inv st' /\
  st_key3 st' = Some key4 /\
  (forall key3, st_key3 st = Some key3 -> bonded gra key3 key4) /\
  exists row,
    st_zma st' = st_zma st ++ [row] /\
    atom_symbols gra !! key4 = Some (row_sym row) /\
    chain_values (length (st_zma st)) (val_row row).
Proof.
  intros [Hk3 Hk2 Hk1 Hr Ha Hd]. unfold chain_step. intros Hstep.
  apply bind_Ok_inv in Hstep as ([row3 r34] & H3 & Hstep).
  apply bind_Ok_inv in Hstep as ([row2 a234] & H2 & Hstep).
  apply bind_Ok_inv in Hstep as ([row1 d1234] & H1 & Hstep).
  apply bind_Ok_inv in Hstep as (sym4 & Hsym & Hstep).
  apply getitem_Ok_inv in Hsym. injection Hstep as <-. simpl.
  set (n := length (st_zma st)) in *.
  assert ((forall key3, st_key3 st = Some key3 -> bonded gra key3 key4) /\
          if decide (1 <= n) then r34 = Some XH_DIST \/ r34 = Some XY_DIST
          else r34 = None) as [Hbond Hr34].
  { destruct (st_key3 st) as [key3|] eqn:Hkey3.
    - apply bind_Ok_inv in H3 as (? & _ & H3).
      apply bind_Ok_inv in H3 as (dist & Hdist & H3). injection H3 as _ <-.
      apply heuristic_bond_distance_Ok_inv in Hdist as [Hbnd Hdist].
      split; [intros ? [= <-]; exact Hbnd|].
      rewrite decide_True.
      + destruct Hdist as [->| ->]; [now left | now right].
      + destruct (decide (n = 0)) as [Hn|Hn]; [|lia].
        apply Hk3 in Hn. discriminate.
    - injection H3 as _ <-. split; [discriminate|].
      rewrite decide_False; [now apply Hr|]. rewrite (proj1 Hk3 eq_refl). lia. }
  assert (if decide (2 <= n)
          then a234 = Some TET_ANG \/ a234 = Some TRI_ANG \/ a234 = Some LIN_ANG
          else a234 = None) as Ha234.
  { destruct (st_key2 st) as [key2|] eqn:Hkey2.
    - apply bind_Ok_inv in H2 as (? & _ & H2).
      apply bind_Ok_inv in H2 as (ang & Hang & H2). injection H2 as _ <-.
      rewrite decide_True.
      + destruct (st_key3 st); [|discriminate].
        apply heuristic_bond_angle_Ok_inv in Hang as [->|[->| ->]]; auto.
      + destruct (decide (n <= 1)) as [Hn|Hn]; [|lia].
        apply Hk2 in Hn. discriminate.
    - injection H2 as _ <-.
      rewrite decide_False; [now apply Ha|]. pose proof (proj1 Hk2 eq_refl). lia. }
  assert (if decide (3 <= n) then d1234 = Some TRA_DIH else d1234 = None) as Hd1234.
  { destruct (st_key1 st) as [key1|] eqn:Hkey1.
    - apply bind_Ok_inv in H1 as (? & _ & H1). injection H1 as _ <-.
      rewrite decide_True; [reflexivity|].
      destruct (decide (n <= 2)) as [Hn|Hn]; [|lia].
      apply Hk1 in Hn. discriminate.
    - injection H1 as _ <-.
      rewrite decide_False; [now apply Hd|]. pose proof (proj1 Hk1 eq_refl). lia. }
  split; [|split; [reflexivity|split; [exact Hbond|]]].
  - constructor; simpl; unfold zmat_add_atom; rewrite ?length_app; simpl; fold n.
    + split; [discriminate | lia].
    + rewrite Hk3. fold n. lia.
    + rewrite Hk2. fold n. lia.
    + discriminate.
    + intros Hkey3. apply Hk3 in Hkey3. fold n in Hkey3.
      rewrite decide_False in Ha234 by lia. exact Ha234.
    + intros Hkey2. apply Hk2 in Hkey2. fold n in Hkey2.
      rewrite decide_False in Hd1234 by lia. exact Hd1234.
  - eexists. split; [reflexivity|]. simpl. split; [exact Hsym|].
    exists r34, a234, d1234. auto.
Qed.

Lemma chain_loop_Ok_inv (gra : graph) (chain_keys : list nat) :
  forall st st' : loop_state,
    window_inv st ->
    for_each (chain_step to_Z hybridizations gra) st chain_keys = Ok st' ->
    links gra (st_key3 st) chain_keys /\
    exists rows,
      st_zma st' = st_zma st ++ rows /\
      Forall2 (fun key row => atom_symbols gra !! key = Some (row_sym row))
              chain_keys rows /\
      forall j row,
        rows !! j = Some row -> chain_values (length (st_zma st) + j) (val_row row).
Proof.
  induction chain_keys as [|key4 keys IH]; intros st st' Hwin Hloop.
  - injection Hloop as <-. split; [exact I|]. exists []. rewrite app_nil_r.
    split; [reflexivity|]. split; [constructor | intros j row Hj; inversion Hj].
  - simpl in Hloop. apply bind_Ok_inv in Hloop as (st1 & Hstep & Hloop).
    apply chain_step_Ok_inv in Hstep
      as (Hwin1 & Hkey3 & Hbond & row & Hzma1 & Hsym & Hvals); [|exact Hwin].
    apply IH in Hloop as (Hlinks & rows & Hzma & Hsyms & Hrows); [|exact Hwin1].
    split.
    + split; [exact Hbond | now rewrite <- Hkey3].
    + exists (row :: rows). split; [|split].
      * rewrite Hzma, Hzma1, <- app_assoc. reflexivity.
      * now constructor.
      * intros [|j] row' Hj; simpl in Hj.
        -- injection Hj as <-. now rewrite Nat.add_0_r.
        -- apply Hrows in Hj. rewrite Hzma1, length_app in Hj. simpl in Hj.
           replace (length (st_zma st) + S j) with (length (st_zma st) + 1 + j) by lia.
           exact Hj.
Qed.

(** X12.  [chain_zmatrix] only returns for a path of the graph: when it
    returns, every key is bonded to the next one and has a symbol (on any
    other key list the call raises), and the z-matrix and the row tuple
    have one entry for each key, repeated keys counted as often as they
    come. *)
Theorem chain_zmatrix_only_paths
    (gra : graph) (chain_keys : list nat) (zma : zmatrix) (chain_rows : list nat) :
  chain_zmatrix to_Z hybridizations gra chain_keys = Ok (zma, chain_rows) ->
  is_path gra chain_keys /\
  Forall (has_symbol gra) chain_keys /\
  length zma = length chain_keys /\
  length chain_rows = length chain_keys.
Proof.
  unfold chain_zmatrix. intros Hchain.
  apply bind_Ok_inv in Hchain as (st' & Hloop & Hchain).
  apply bind_Ok_inv in Hchain as (rows' & Hrows' & Hchain). injection Hchain as <- <-.
  apply chain_loop_Ok_inv in Hloop as (Hlinks & rows & Hzma & Hsyms & _);
    [|now apply window_inv_init].
  simpl in Hzma, Hlinks. rewrite Hzma. split; [|split; [|split]].
  - eapply links_is_path, Hlinks.
  - apply Forall_forall. intros key Hin.
    apply list_elem_of_lookup in Hin as [i Hi].
    destruct (Forall2_lookup_l _ _ _ _ _ Hsyms Hi) as (row & _ & Hsym).
    now exists (row_sym row).
  - symmetry. eapply Forall2_length, Hsyms.
  - eapply mapM_Ok_length, Hrows'.
Qed.

(** X13.  In a z-matrix [chain_zmatrix] returns, row [i] carries the symbol
    of the [i]-th key of the chain, and its values are: nothing in row 0; a
    distance of 1.1 or 1.5 from row 1 on; an angle of 109.4712, 120 or 180
    degrees from row 2 on; the dihedral 180 from row 3 on. *)
Theorem chain_zmatrix_values
    (gra : graph) (chain_keys : list nat) (zma : zmatrix) (chain_rows : list nat) :
  chain_zmatrix to_Z hybridizations gra chain_keys = Ok (zma, chain_rows) ->
  Forall2 (fun key row => atom_symbols gra !! key = Some (row_sym row)) chain_keys zma /\
  forall i row, zma !! i = Some row -> chain_values i (val_row row).
Proof.
  unfold chain_zmatrix. intros Hchain.
  apply bind_Ok_inv in Hchain as (st' & Hloop & Hchain).
  apply bind_Ok_inv in Hchain as (rows' & Hrows' & Hchain). injection Hchain as <- <-.
  apply chain_loop_Ok_inv in Hloop as (_ & rows & Hzma & Hsyms & Hvals);
    [|now apply window_inv_init].
  simpl in Hzma, Hvals. rewrite Hzma. split; [exact Hsyms | exact Hvals].
Qed.

(** X14.  [chain_zmatrix] does not check that the keys are distinct.  On
    the walk [key0; key1; key0] along one bond it returns three rows, but
    the row dictionary keeps one row for each key, the last: the row tuple
    is [(2, 1, 2)] and the third row refers to itself for its angle. *)
Theorem chain_zmatrix_repeated_key (gra : graph) (key0 key1 : nat) :
  bonded gra key0 key1 ->
  placeable to_Z hybridizations gra key0 ->
  placeable to_Z hybridizations gra key1 ->
  exists zma row,
    chain_zmatrix to_Z hybridizations gra [key0; key1; key0] = Ok (zma, [2; 1; 2]) /\
    zma !! 2 = Some row /\
    key_row row = [Some 1; Some 2; None] /\
    2 ∈ row_refs row.
Proof.
  intros Hbond Hok0 Hok1.
  assert (key0 <> key1) as Hne by (apply bonded_iff in Hbond; tauto).
  assert (bonded gra key1 key0) as Hbond'.
  { apply bonded_sym; [exact Hbond|].
    eapply has_symbol_atom, placeable_has_symbol, Hok0. }
  destruct (placeable_has_symbol _ _ _ _ Hok0) as [sym0 Hsym0].
  destruct (placeable_has_symbol _ _ _ _ Hok1) as [sym1 Hsym1].
  destruct (heuristic_bond_distance_Ok to_Z hybridizations gra key0 key1 true)
    as [dist01 Hd01]; [assumption..|].
  destruct (heuristic_bond_distance_Ok to_Z hybridizations gra key1 key0 true)
    as [dist10 Hd10]; [assumption..|].
  destruct (heuristic_bond_angle_Ok to_Z hybridizations gra key0 key1 key0 true)
    as [ang Hang]; [assumption..|].
  set (row0 := ZRow sym0 [None; None; None] [None; None; None]).
  set (row1 := ZRow sym1 [Some 0; None; None] [Some dist01; None; None]).
  set (row2 := ZRow sym0 [Some 1; Some 2; None] [Some dist10; Some ang; None]).
  set (st0 := LoopState ∅ [] None None None None None None None None None).
  set (st1 := LoopState (<[key0 := 0]> ∅) [row0]
                (Some key0) None None None None None None None None).
  set (st2 := LoopState (<[key1 := 1]> (<[key0 := 0]> ∅)) [row0; row1]
                (Some key1) (Some 0) (Some dist01) (Some key0) None None
                None None None).
  set (st3 := LoopState (<[key0 := 2]> (<[key1 := 1]> (<[key0 := 0]> ∅)))
                [row0; row1; row2]
                (Some key0) (Some 1) (Some dist10) (Some key1) (Some 2) (Some ang)
                (Some key0) None None).
  assert (chain_step to_Z hybridizations gra st0 key0 = Ok st1) as Hst1.
  { unfold chain_step. simpl. now rewrite (getitem_Some _ _ _ Hsym0). }
  assert (chain_step to_Z hybridizations gra st1 key1 = Ok st2) as Hst2.
  { unfold chain_step. simpl.
    rewrite (getitem_Some _ key0 0) by (now simplify_map_eq). simpl.
    rewrite Hd01. simpl. now rewrite (getitem_Some _ _ _ Hsym1). }
  assert (chain_step to_Z hybridizations gra st2 key0 = Ok st3) as Hst3.
  { unfold chain_step. simpl.
    rewrite (getitem_Some _ key1 1) by (now simplify_map_eq). simpl.
    rewrite Hd10. simpl.
    rewrite (getitem_Some _ key0 2) by (now simplify_map_eq). simpl.
    rewrite Hang. simpl. now rewrite (getitem_Some _ _ _ Hsym0). }
  exists [row0; row1; row2], row2.
  split; [|split; [reflexivity|split; [reflexivity|]]].
  - unfold chain_zmatrix. fold st0.
    rewrite (for_each_cons_Ok _ _ _ _ _ Hst1), (for_each_cons_Ok _ _ _ _ _ Hst2),
      (for_each_cons_Ok _ _ _ _ _ Hst3).
    unfold st3. simpl. unfold getitem.
    assert ((<[key0:=2]> (<[key1:=1]> (<[key0:=0]> ∅)) : gmap nat nat) !! key0 = Some 2)
      as -> by (now simplify_map_eq).
    assert ((<[key0:=2]> (<[key1:=1]> (<[key0:=0]> ∅)) : gmap nat nat) !! key1 = Some 1)
      as -> by (now simplify_map_eq).
    reflexivity.
  - simpl. apply elem_of_cons. right. now apply elem_of_cons; left.
Qed.

End ChainMore.

(** The butane chain returns, so it is a path. *)
Lemma chain_zmatrix_only_paths_witness :
  is_path Examples.butane [0; 1; 2; 3] /\
  Forall (has_symbol Examples.butane) [0; 1; 2; 3] /\
  length MoreExamples.butane_zma = length [0; 1; 2; 3] /\
  length [0; 1; 2; 3] = length [0; 1; 2; 3].
Proof.
  apply (chain_zmatrix_only_paths Examples.to_Z Examples.hybridizations Examples.butane
           [0; 1; 2; 3] MoreExamples.butane_zma [0; 1; 2; 3]).
  reflexivity.
Defined.

Lemma chain_zmatrix_values_witness :
  Forall2 (fun key row => atom_symbols Examples.butane !! key = Some (row_sym row))
          [0; 1; 2; 3] MoreExamples.butane_zma /\
  forall i row,
    MoreExamples.butane_zma !! i = Some row -> chain_values i (val_row row).
Proof.
  apply (chain_zmatrix_values Examples.to_Z Examples.hybridizations Examples.butane
           [0; 1; 2; 3] MoreExamples.butane_zma [0; 1; 2; 3]).
  reflexivity.
Defined.

(** Forth and back along the first bond of butane *)
Lemma chain_zmatrix_repeated_key_witness :
  exists zma row,
    chain_zmatrix Examples.to_Z Examples.hybridizations Examples.butane [0; 1; 0]
      = Ok (zma, [2; 1; 2]) /\
    zma !! 2 = Some row /\
    key_row row = [Some 1; Some 2; None] /\
    2 ∈ row_refs row.
Proof.
  apply (chain_zmatrix_repeated_key Examples.to_Z Examples.hybridizations
           Examples.butane 0 1).
  - apply butane_bonded. lia.
  - apply butane_placeable. lia.
  - apply butane_placeable. lia.
Defined.

(** ** The ring builder: rows and references *)

Lemma ring_window_row (row_dct : gmap nat nat) (placed : list nat) (d : nat)
    (key : option nat) (row : option nat) :
  (forall j k, placed !! j = Some k -> row_dct !! k = Some (length placed - 1 - j)) ->
  key = placed !! d ->
  (key = None -> row = None) ->
  match key with
  | Some k => Some <$> getitem row_dct k
  | None => Ok row
  end = Ok (back_ref (length placed) (S d)).
Proof.
  intros Hrows -> Hnone. destruct (placed !! d) as [k|] eqn:Hd.
  - rewrite (getitem_Some _ _ _ (Hrows _ _ Hd)). simpl.
    apply lookup_lt_Some in Hd. rewrite back_ref_Some by lia.
    do 2 f_equal. lia.
  - rewrite Hnone by reflexivity. apply lookup_ge_None in Hd.
    rewrite back_ref_None by lia. reflexivity.
Qed.

Lemma ring_step_refs (gra : graph) (st : loop_state) (placed : list nat) (key4 : nat) :
  ring_inv gra st placed ->
  key4 ∉ placed ->
  has_symbol gra key4 ->
  exists st',
    ring_step gra st key4 = Ok st' /\ ring_inv gra st' (key4 :: placed).
Proof.
  intros [Hcount Hrows Hk3 Hk2 Hk1 Hr3 Hr2 Hr1 Hsyms Hrefs] Hfresh [sym4 Hsym4].
  unfold ring_step.
  set (row_dct := <[key4 := zmat_count (st_zma st)]> (st_row_dct st)).
  assert (forall j key, placed !! j = Some key ->
                        row_dct !! key = Some (length placed - 1 - j)) as Hrows'.
  { intros j key Hj. unfold row_dct. rewrite lookup_insert_ne; [eauto|].
    intros ->. apply Hfresh. eapply list_elem_of_lookup_2, Hj. }
  rewrite (ring_window_row row_dct placed 0 _ _ Hrows' Hk3 Hr3). simpl.
  rewrite (ring_window_row row_dct placed 1 _ _ Hrows' Hk2 Hr2). simpl.
  rewrite (ring_window_row row_dct placed 2 _ _ Hrows' Hk1 Hr1). simpl.
  rewrite (getitem_Some _ _ _ Hsym4). simpl.
  eexists. split; [reflexivity|].
  constructor; simpl.
  - unfold zmat_add_atom. rewrite length_app. simpl. lia.
  - intros [|j] key Hj; simpl in Hj.
    + injection Hj as <-. unfold row_dct, zmat_count. rewrite lookup_insert_eq.
      f_equal. lia.
    + rewrite (Hrows' _ _ Hj). f_equal. lia.
  - reflexivity.
  - exact Hk3.
  - exact Hk2.
  - discriminate.
  - rewrite Hk3. intros H0. apply lookup_ge_None in H0. apply back_ref_None. lia.
  - rewrite Hk2. intros H1. apply lookup_ge_None in H1. apply back_ref_None. lia.
  - rewrite reverse_cons. unfold zmat_add_atom.
    apply Forall2_app; [exact Hsyms|]. repeat constructor. exact Hsym4.
  - intros i row Hi. unfold zmat_add_atom in Hi.
    apply lookup_app_Some in Hi as [Hi|[Hge Hi]]; [eauto|].
    apply list_lookup_singleton_Some in Hi as [Hi <-]. simpl.
    replace i with (length placed) by lia. reflexivity.
Qed.

Lemma ring_loop_refs (gra : graph) (rest : list nat) :
  forall (st : loop_state) (placed : list nat),
    ring_inv gra st placed ->
    NoDup rest ->
    (forall key, key ∈ rest -> key ∉ placed) ->
    Forall (has_symbol gra) rest ->
    exists st',
      for_each (ring_step gra) st rest = Ok st' /\
      ring_inv gra st' (reverse rest ++ placed).
Proof.
  induction rest as [|key4 rest IH]; intros st placed Hinv Hnodup Hfresh Hsym.
  - exists st. split; [reflexivity | exact Hinv].
  - apply NoDup_cons in Hnodup as [Hnotin Hnodup].
    apply Forall_cons in Hsym as [Hsym4 Hsym].
    destruct (ring_step_refs gra st placed key4 Hinv) as (st1 & Hstep & Hinv1);
      [apply Hfresh; left | assumption |].
    destruct (IH st1 (key4 :: placed) Hinv1 Hnodup) as (st' & Hloop & Hinv').
    + intros key Hkey [->|Hin]%elem_of_cons; [contradiction|].
      apply (Hfresh key); [now right | exact Hin].
    + exact Hsym.
    + exists st'. simpl. rewrite Hstep. simpl. split; [exact Hloop|].
      rewrite reverse_cons, <- app_assoc. exact Hinv'.
Qed.

Section RingMore.

Variable root_scalar : (R -> result R) -> R -> R -> result RootResults.

(** X15.  For distinct keys that have symbols, once the angle is found,
    [ring_zmatrix] returns the rows [0 .. n-1] for the keys in order; row
    [i] carries the symbol of the [i]-th key and refers to the rows
    [i-1], [i-2], [i-3] that exist, so only to rows below it.  Unlike the
    chain builder it asks for no bond between the keys: the graph is read
    for the symbols only. *)
Theorem ring_zmatrix_rows
    (gra : graph) (ring_keys : list nat) (bond_dist end_dist : option R) (bond_ang : R) :
  ring_arc_bond_angle root_scalar (Z.of_nat (length ring_keys))
    (default XY_DIST end_dist) (default XY_DIST bond_dist) = Ok bond_ang ->
  NoDup ring_keys ->
  Forall (has_symbol gra) ring_keys ->
  exists zma,
    ring_zmatrix root_scalar gra ring_keys bond_dist end_dist
      = Ok (zma, seq 0 (length ring_keys)) /\
    Forall2 (fun key row => atom_symbols gra !! key = Some (row_sym row)) ring_keys zma /\
    forall i row,
      zma !! i = Some row ->
      key_row row = [back_ref i 1; back_ref i 2; back_ref i 3] /\
      (forall ref, ref ∈ row_refs row -> ref < i).
Proof.
  intros Hang Hnodup Hsym. unfold ring_zmatrix. rewrite Hang. simpl.
  match goal with |- context [for_each _ ?st0 _] => set (st := st0) end.
  destruct (ring_loop_refs gra ring_keys st []) as (st' & Hloop & Hinv).
  { constructor; simpl; try reflexivity; try discriminate. constructor. }
  { exact Hnodup. }
  { intros key _ Hin. inversion Hin. }
  { exact Hsym. }
  rewrite Hloop. simpl. rewrite app_nil_r in Hinv.
  destruct Hinv as [Hcount Hrows _ _ _ _ _ _ Hsyms Hrefs].
  rewrite length_reverse in Hcount, Hrows. rewrite reverse_involutive in Hsyms.
  rewrite (mapM_getitem_seq _ _ 0).
  2:{ intros i key Hi. pose proof (lookup_lt_Some _ _ _ Hi) as Hlt.
      rewrite (Hrows (length ring_keys - 1 - i) key).
      - f_equal. lia.
      - rewrite reverse_lookup by lia. rewrite <- Hi. f_equal. lia. }
  simpl. exists (st_zma st'). split; [reflexivity|]. split; [exact Hsyms|].
  intros i row Hi. split; [apply Hrefs, Hi|].
  apply row_refs_back_ref, Hrefs, Hi.
Qed.

(** X16.  With a positive end distance and a bond distance that is not
    negative, [ring_zmatrix] builds sequences of fewer than two keys
    without consulting the root finder: no key gives the empty z-matrix,
    and one key gives a single row without references that still carries
    the bond distance, the angle 180 and the dihedral 0 (where the chain
    builder leaves the values of its first row empty). *)
Theorem ring_zmatrix_short
    (gra : graph) (key : nat) (sym : string) (bond_dist end_dist : R) :
  (0 < end_dist)%R -> (0 <= bond_dist)%R ->
  atom_symbols gra !! key = Some sym ->
  ring_zmatrix root_scalar gra [] (Some bond_dist) (Some end_dist) = Ok ([], []) /\
  ring_zmatrix root_scalar gra [key] (Some bond_dist) (Some end_dist)
  = Ok ([ZRow sym [None; None; None] [Some bond_dist; Some 180%R; Some 0%R]], [0]).
Proof.
  intros Hend Hbond Hsym. split.
  - unfold ring_zmatrix. simpl.
    rewrite ring_arc_bond_angle_guard; [reflexivity|].
    change (IZR (Z.of_nat 0 - 1)) with (-1)%R. lra.
  - unfold ring_zmatrix. simpl.
    rewrite ring_arc_bond_angle_guard.
    2:{ change (IZR (Z.of_nat 1 - 1)) with 0%R. lra. }
    simpl. unfold ring_step. simpl. rewrite (getitem_Some _ _ _ Hsym). simpl.
    unfold getitem. rewrite lookup_insert_eq. reflexivity.
Qed.

End RingMore.

(** The six-membered ring of the example graph *)
Lemma ring_zmatrix_rows_witness :
  exists zma,
    ring_zmatrix Examples.lower_end_solver Examples.bicyclooctane
      [0; 1; 2; 3; 4; 5] None None
      = Ok (zma, seq 0 (length [0; 1; 2; 3; 4; 5])) /\
    Forall2 (fun key row =>
               atom_symbols Examples.bicyclooctane !! key = Some (row_sym row))
            [0; 1; 2; 3; 4; 5] zma /\
    forall i row,
      zma !! i = Some row ->
      key_row row = [back_ref i 1; back_ref i 2; back_ref i 3] /\
      (forall ref, ref ∈ row_refs row -> ref < i).
Proof.
  apply (ring_zmatrix_rows Examples.lower_end_solver Examples.bicyclooctane
           [0; 1; 2; 3; 4; 5] None None
           (180 - 0.01 * radian_to_degree / IZR (6 - 1))%R).
  - apply lower_end_solver_angle; [|simpl; lia].
    simpl. unfold XY_DIST. change (IZR (6 - 1)) with 5%R. lra.
  - repeat (apply NoDup_cons; split; [set_unfold; lia|]). apply NoDup_nil_2.
  - repeat constructor; apply bicyclooctane_has_symbol; lia.
Defined.

(** The carbon of the C-H fragment alone, with a root finder that would
    give up *)
Lemma ring_zmatrix_short_witness :
  ring_zmatrix MoreExamples.stalled_solver Examples.ch [] (Some 1.5%R) (Some 1.5%R)
  = Ok ([], []) /\
  ring_zmatrix MoreExamples.stalled_solver Examples.ch [0] (Some 1.5%R) (Some 1.5%R)
  = Ok ([ZRow "C" [None; None; None] [Some 1.5%R; Some 180%R; Some 0%R]], [0]).
Proof.
  apply (ring_zmatrix_short MoreExamples.stalled_solver Examples.ch 0 "C" 1.5%R 1.5%R).
  - lra.
  - lra.
  - reflexivity.
Defined.

(** ** The ring-system composer: what it asks of the decomposition *)

Lemma dict_zip_lookup_elem (keys vals : list nat) (key val : nat) :
  dict_zip keys vals !! key = Some val -> key ∈ keys.
Proof.
  unfold dict_zip.
  assert (forall (pairs : list (nat * nat)) (dct : gmap nat nat),
            foldl (fun dct kv => <[kv.1 := kv.2]> dct) dct pairs !! key = Some val ->
            key ∈ pairs.*1 \/ dct !! key = Some val) as Hfold.
  { induction pairs as [|[k v] pairs IH]; intros dct Hlook; simpl in Hlook.
    - now right.
    - apply IH in Hlook as [Hin|Hlook]; [left; now right|].
      simpl in Hlook. rewrite lookup_insert in Hlook. case_decide.
      + subst k. left. now left.
      + now right. }
  intros Hlook. apply Hfold in Hlook as [Hin|Hlook]; [|inversion Hlook].
  apply list_elem_of_fmap in Hin as ([k v] & -> & Hin).
  simpl. eapply elem_of_zip_l, Hin.
Qed.

Lemma getitem_dict_zip_KeyError (keys vals : list nat) (key : nat) :
  key ∉ keys -> getitem (dict_zip keys vals) key = Raise KeyError.
Proof.
  intros Hnot. unfold getitem.
  destruct (dict_zip keys vals !! key) as [val|] eqn:Hlook; [|reflexivity].
  exfalso. eapply Hnot, dict_zip_lookup_elem, Hlook.
Qed.

Section RingSystemMore.

Variable root_scalar : (R -> result R) -> R -> R -> result RootResults.
Variable zmat_distance : zmatrix -> nat -> nat -> result R.
Variable zmat_central_angle : zmatrix -> nat -> nat -> nat -> result R.
Variable graph_string : graph -> result string.
Variable geometry : Type.
Variable zmat_geometry : zmatrix -> result geometry.
Variable zmat_string : zmatrix -> result string.
Variable geom_string : geometry -> result string.

(** X18.  Once [automol.graph.string] has returned the text of the graph
    and the primary ring is built, [ring_system_zmatrix] raises unless an
    arc follows that has at least two keys and whose two end keys are keys
    of the ring: [StopIteration] when no arc follows, [IndexError] on an
    empty arc, [KeyError] on an end key that is not in the ring (the row
    dictionary holds the ring only), and some exception on an arc of a
    single key. *)
Theorem ring_system_zmatrix_arc_ends
    (gra : graph) (ring_keys arc_keys : list nat) (later : list (list nat))
    (text : string) (zma0 : zmatrix) (ring_rows : list nat) :
  graph_string gra = Ok text ->
  ring_zmatrix root_scalar gra ring_keys None None = Ok (zma0, ring_rows) ->
  ring_system_zmatrix root_scalar zmat_distance zmat_central_angle graph_string
    zmat_geometry zmat_string geom_string gra [ring_keys] = Raise StopIteration /\
  (arc_keys = [] ->
   ring_system_zmatrix root_scalar zmat_distance zmat_central_angle graph_string
     zmat_geometry zmat_string geom_string gra (ring_keys :: arc_keys :: later)
   = Raise IndexError) /\
  (forall end_key0 end_key1,
     arc_keys !! 0 = Some end_key0 -> last arc_keys = Some end_key1 ->
     end_key0 ∉ ring_keys \/ end_key1 ∉ ring_keys ->
     ring_system_zmatrix root_scalar zmat_distance zmat_central_angle graph_string
       zmat_geometry zmat_string geom_string gra (ring_keys :: arc_keys :: later)
     = Raise KeyError) /\
  (length arc_keys = 1 ->
   exists err,
     ring_system_zmatrix root_scalar zmat_distance zmat_central_angle graph_string
       zmat_geometry zmat_string geom_string gra (ring_keys :: arc_keys :: later)
     = Raise err).
Proof.
  intros Htext Hring. unfold ring_system_zmatrix, ring_system_zmatrix_zma.
  rewrite Htext. simpl. rewrite Hring. simpl. split; [reflexivity|]. split; [|split].
  - intros ->. reflexivity.
  - intros end_key0 end_key1 Hkey0 Hkey1 Hnot.
    unfold list_getitem, list_last. rewrite Hkey0, Hkey1. simpl.
    destruct (decide (end_key0 ∈ ring_keys)) as [Hin0|Hnot0].
    + destruct Hnot as [Hnot|Hnot]; [contradiction|].
      destruct (dict_zip_is_Some ring_keys ring_rows end_key0) as [row0 Hrow0];
        [|exact Hin0|].
      { destruct (ring_zmatrix_lengths _ _ _ _ _ _ _ Hring) as [_ Hlen]. now rewrite Hlen. }
      rewrite (getitem_Some _ _ _ Hrow0). simpl.
      rewrite (getitem_dict_zip_KeyError _ _ end_key1) by assumption. reflexivity.
    + rewrite (getitem_dict_zip_KeyError _ _ end_key0) by assumption. reflexivity.
  - intros Hlen. destruct arc_keys as [|key [|key' arc_keys]]; try discriminate.
    simpl.
    destruct (getitem (dict_zip ring_keys ring_rows) key) as [row|err]; [|eauto]. simpl.
    destruct (zmat_distance zma0 row row) as [end_dist|err]; [|eauto]. simpl.
    destruct (ring_zmatrix root_scalar gra [key] None (Some end_dist))
      as [[arc_zma arc_rows]|err] eqn:Harc; [|eauto]. simpl.
    destruct (ring_zmatrix_lengths _ _ _ _ _ _ _ Harc) as [_ Hlen'].
    destruct arc_rows as [|arc_row [|arc_row' arc_rows]]; try discriminate.
    exists IndexError. reflexivity.
Qed.

End RingSystemMore.

(** The six-membered ring of the example graph alone, with an empty arc,
    and with the arc [6 - 7 - 3] that does not start in the ring *)
Lemma ring_system_zmatrix_arc_ends_witness :
  ring_system_zmatrix Examples.lower_end_solver Examples.across_distance
    Examples.right_angle Examples.graph_text Examples.cartesian Examples.zmat_text
    Examples.geom_text Examples.bicyclooctane [[0; 1; 2; 3; 4; 5]]
  = Raise StopIteration /\
  ring_system_zmatrix Examples.lower_end_solver Examples.across_distance
    Examples.right_angle Examples.graph_text Examples.cartesian Examples.zmat_text
    Examples.geom_text Examples.bicyclooctane [[0; 1; 2; 3; 4; 5]; []]
  = Raise IndexError /\
  ring_system_zmatrix Examples.lower_end_solver Examples.across_distance
    Examples.right_angle Examples.graph_text Examples.cartesian Examples.zmat_text
    Examples.geom_text Examples.bicyclooctane [[0; 1; 2; 3; 4; 5]; [6; 7; 3]]
  = Raise KeyError.
Proof.
  assert (exists ang, ring_arc_bond_angle Examples.lower_end_solver 6 XY_DIST XY_DIST
                        = Ok ang) as [ang Hang].
  { eexists. apply lower_end_solver_angle; [|lia].
    unfold XY_DIST. change (IZR (6 - 1)) with 5%R. lra. }
  destruct (ring_zmatrix_Ok Examples.lower_end_solver Examples.bicyclooctane
              [0; 1; 2; 3; 4; 5] None None ang Hang)
    as (zma0 & ring_rows & Hring & _).
  { repeat constructor; apply bicyclooctane_has_symbol; lia. }
  pose proof (fun arc_keys =>
    ring_system_zmatrix_arc_ends Examples.lower_end_solver Examples.across_distance
      Examples.right_angle Examples.graph_text unit Examples.cartesian
      Examples.zmat_text Examples.geom_text Examples.bicyclooctane
      [0; 1; 2; 3; 4; 5] arc_keys [] EmptyString zma0 ring_rows eq_refl Hring)
    as Hends.
  split; [|split].
  - apply (Hends []).
  - apply (proj1 (proj2 (Hends []))). reflexivity.
  - apply (proj1 (proj2 (proj2 (Hends [6; 7; 3]))) 6 3);
      [reflexivity | reflexivity | left; set_unfold; lia].
Defined.
